(** * hello_world.cpp: the greeting program, its two streams and its exit status

    The repository is one translation unit, [src/hello_world.cpp]:

<<
    int main() {
        try {
            std::cout << "Hello, World!" << std::endl;
            return 0;
        } catch (const std::exception& e) {
            std::cerr << "An error occurred: " << e.what() << std::endl;
            return 1;
        }
    }
>>

    [main] is embedded as a computation in a small monad that threads the
    state of the process (the two standard streams) and may end by a thrown
    object.  The stream operations [main] calls belong to the C++ library;
    they are modelled in [Module Ios] after ISO C++ [ostream] / [ios]:
    an error state, an exception mask, a put area in front of a device
    (clauses [iostate.flags], [ostream.sentry], [ostream.formatted.reqmts],
    [ostream.unformatted], [ostream.manip], [narrow.stream.objects]).
    Where the standard leaves a choice, the definitions follow libstdc++
    ([bits/ostream.tcc], [bits/ostream_insert.h], [bits/basic_ios.h]): the
    sentry of a stream that is bad calls [setstate(failbit)], and [flush()]
    builds a sentry of its own.

    Scope.  A device takes all it is handed or nothing of it.  The exception
    masks and the devices of both streams are parameters of the environment;
    in a process whose only code is [main] the masks are [goodbit], and then
    the output statement never throws ([quiet_try_block]). *)

From Stdlib Require Import ZArith String Ascii Bool List Lia.
Import ListNotations.

Local Open Scope string_scope.

(** ** Thrown objects *)

(** What a [throw] can carry, as far as [catch (const std::exception&)] tells
    objects apart: an object of a class derived from [std::exception], with
    the text its [what()] returns, or an object of any other type. *)
Inductive thrown : Type :=
| Derived (what : string)
| Unrelated (tag : Z).

Definition is_derived (e : thrown) : bool :=
  match e with
  | Derived _ => true
  | Unrelated _ => false
  end.

(** ** State and exceptions *)

Section Effects.

Variable S : Type.

(** A computation ends normally with a value, or by a thrown object; the
    state reached so far is kept in both cases. *)
Inductive outcome (A : Type) : Type :=
| Done (a : A) (s : S)
| Raised (e : thrown) (s : S).

Definition M (A : Type) : Type := S -> outcome A.

Definition ret {A : Type} (a : A) : M A := fun s => Done A a s.

Definition bind {A B : Type} (m : M A) (k : A -> M B) : M B :=
  fun s =>
    match m s with
    | Done _ a s' => k a s'
    | Raised _ e s' => Raised B e s'
    end.

Definition final {A : Type} (r : outcome A) : S :=
  match r with
  | Done _ _ s => s
  | Raised _ _ s => s
  end.

Definition raised {A : Type} (r : outcome A) : option thrown :=
  match r with
  | Done _ _ _ => None
  | Raised _ e _ => Some e
  end.

Definition value {A : Type} (r : outcome A) : option A :=
  match r with
  | Done _ a _ => Some a
  | Raised _ _ _ => None
  end.

End Effects.

Arguments Done {S A} a s.
Arguments Raised {S A} e s.
Arguments ret {S A} a _.
Arguments bind {S A B} m k _.
Arguments final {S A} r.
Arguments raised {S A} r.
Arguments value {S A} r.

Notation "x <- m ;; k" := (bind m (fun x => k))
  (at level 61, m at next level, right associativity).
Notation "m ;; k" := (bind m (fun _ => k))
  (at level 61, right associativity).

(** ** The output streams of the C++ library *)

Module Ios.

(** [ios_base::iostate], a bitmask type. *)
Definition goodbit : Z := 0.
Definition badbit : Z := 1.
Definition eofbit : Z := 2.
Definition failbit : Z := 4.

(** The device a stream buffer empties into.  It takes everything it is
    handed, or refuses it (a closed or broken descriptor, a full disk), or
    the buffer's virtual function throws. *)
Inductive device : Type :=
| Accepting
| Rejecting
| Raising (e : thrown).

(** A [basic_ostream] with its [basic_ios] part and its stream buffer:
    [rdstate] and [exceptions] are the error state and the exception mask,
    [pending] is the put area (at most [capacity] characters), [delivered]
    is what the device has received.  [failure_text] is the [what()] of the
    [ios_base::failure] this implementation throws. *)
Record ostream : Type := mkstream {
  rdstate : Z;
  exceptions : Z;
  capacity : nat;
  pending : string;
  sink : device;
  delivered : string;
  failure_text : string
}.

Definition set_rdstate (st : Z) (os : ostream) : ostream :=
  mkstream st (exceptions os) (capacity os) (pending os) (sink os)
           (delivered os) (failure_text os).

Definition set_pending (data : string) (os : ostream) : ostream :=
  mkstream (rdstate os) (exceptions os) (capacity os) data (sink os)
           (delivered os) (failure_text os).

Definition deliver (data : string) (os : ostream) : ostream :=
  mkstream (rdstate os) (exceptions os) (capacity os) "" (sink os)
           (delivered os ++ data) (failure_text os).

Definition good (os : ostream) : bool := (rdstate os =? goodbit)%Z.

Definition bad (os : ostream) : bool :=
  negb (Z.land (rdstate os) badbit =? 0)%Z.

(** [basic_ios::clear(state)]: store the state, then throw
    [ios_base::failure] when the mask selects one of its bits. *)
Definition clear (st : Z) : M ostream unit :=
  fun os =>
    let os' := set_rdstate st os in
    if (Z.land (exceptions os') (rdstate os') =? 0)%Z
    then Done tt os'
    else Raised (Derived (failure_text os')) os'.

(** [basic_ios::setstate(state)] is [clear(rdstate() | state)]. *)
Definition setstate (st : Z) : M ostream unit :=
  fun os => clear (Z.lor (rdstate os) st) os.

(** Turn [badbit] on without throwing a failure; the exception in flight
    [e] goes on when the mask has [badbit]. *)
Definition set_badbit_and_rethrow (e : thrown) : M ostream unit :=
  fun os =>
    let os' := set_rdstate (Z.lor (rdstate os) badbit) os in
    if (Z.land (exceptions os') badbit =? 0)%Z
    then Done tt os'
    else Raised e os'.

(** *** Stream buffer *)

(** Hand [data] to the device; [false] is the buffer's failure value
    ([eof], a short count, [-1]). *)
Definition transfer (data : string) : M ostream bool :=
  fun os =>
    match sink os with
    | Accepting => Done true (deliver data os)
    | Rejecting => Done false os
    | Raising e => Raised e os
    end.

(** [sputn]: the characters stay in the put area while they fit, otherwise
    the put area and the characters go to the device. *)
Definition sputn (s : string) : M ostream bool :=
  fun os =>
    let data := pending os ++ s in
    if (String.length data <=? capacity os)%nat
    then Done true (set_pending data os)
    else transfer data os.

Definition sputc (c : ascii) : M ostream bool := sputn (String c "").

(** [pubsync]: empty the put area into the device. *)
Definition pubsync : M ostream bool :=
  fun os =>
    match pending os with
    | "" => Done true os
    | data => transfer data os
    end.

(** *** Output functions *)

(** The part of a formatted or unformatted output function that runs once
    its sentry is satisfied: a failed insertion calls [setstate(badbit)];
    an exception thrown during output turns [badbit] on and is rethrown
    only when the mask has [badbit]. *)
Definition output (attempt : M ostream bool) : M ostream unit :=
  fun os =>
    match attempt os with
    | Done true os' => Done tt os'
    | Done false os' => setstate badbit os'
    | Raised e os' => set_badbit_and_rethrow e os'
    end.

(** The sentry of a stream that is tied to no other stream:
    [if (os.good()) ok = true; else if (os.bad()) os.setstate(failbit);]
    and [setstate] throws when the mask selects a bit that is set. *)
Definition sentry_untied : M ostream bool :=
  fun os =>
    if good os then Done true os
    else if bad os then (setstate failbit ;; ret false) os
    else Done false os.

(** An output function of such a stream: the sentry, then the output when
    the sentry is satisfied. *)
Definition guarded (body : M ostream unit) : M ostream unit :=
  ok <- sentry_untied ;; if ok : bool then body else ret tt.

(** [flush()] of a stream that is tied to no other stream. *)
Definition flush_untied : M ostream unit := guarded (output pubsync).

(** A stream as [ios_base::Init] leaves it: good, nothing written. *)
Definition open (mask : Z) (room : nat) (d : device) (text : string)
  : ostream :=
  mkstream goodbit mask room "" d "" text.

End Ios.

(** ** The process: std::cout and std::cerr *)

Inductive stream_id : Type := Cout | Cerr.

Record process : Type := mkprocess {
  cout : Ios.ostream;
  cerr : Ios.ostream
}.

Definition stream (id : stream_id) (p : process) : Ios.ostream :=
  match id with
  | Cout => cout p
  | Cerr => cerr p
  end.

Definition update (id : stream_id) (os : Ios.ostream) (p : process)
  : process :=
  match id with
  | Cout => mkprocess os (cerr p)
  | Cerr => mkprocess (cout p) os
  end.

(** Run a stream operation on one of the two streams of the process. *)
Definition on {A : Type} (id : stream_id) (m : M Ios.ostream A)
  : M process A :=
  fun p =>
    match m (stream id p) with
    | Done a os => Done a (update id os p)
    | Raised e os => Raised e (update id os p)
    end.

(** [std::cerr.tie()] is [&std::cout]; [std::cout] is tied to nothing. *)
Definition tie (id : stream_id) : option stream_id :=
  match id with
  | Cout => None
  | Cerr => Some Cout
  end.

(** [ostream::sentry], as libstdc++ writes its constructor:
<<
    if (os.tie() && os.good()) os.tie()->flush();
    if (os.good()) ok = true;
    else if (os.bad()) os.setstate(ios_base::failbit);
>>
    An exception of the flush of the tied stream, or of [setstate], leaves
    the constructor. *)
Definition flush_tied (id : stream_id) : M process unit :=
  fun p =>
    if Ios.good (stream id p) then
      match tie id with
      | Some t => on t Ios.flush_untied p
      | None => Done tt p
      end
    else Done tt p.

Definition sentry (id : stream_id) : M process bool :=
  flush_tied id ;; on id Ios.sentry_untied.

(** [os << s] for a character string. *)
Definition insert (id : stream_id) (s : string) : M process unit :=
  ok <- sentry id ;;
  if ok : bool then on id (Ios.output (Ios.sputn s)) else ret tt.

(** [os.put(c)]. *)
Definition put (id : stream_id) (c : ascii) : M process unit :=
  ok <- sentry id ;;
  if ok : bool then on id (Ios.output (Ios.sputc c)) else ret tt.

(** [os.flush()]. *)
Definition flush (id : stream_id) : M process unit :=
  ok <- sentry id ;;
  if ok : bool then on id (Ios.output Ios.pubsync) else ret tt.

Definition newline : ascii := "010"%char.

(** [os << std::endl] is [flush(os.put(os.widen('\n')))]. *)
Definition endl (id : stream_id) : M process unit :=
  put id newline ;; flush id.

(** ** main *)

Definition greeting : string := "Hello, World!".
Definition error_prefix : string := "An error occurred: ".

(** The body of the [try] block. *)
Definition try_block : M process Z :=
  insert Cout greeting ;;
  endl Cout ;;
  ret 0%Z.

(** The body of the handler; [what] is [e.what()] of the caught object. *)
Definition handler (what : string) : M process Z :=
  insert Cerr error_prefix ;;
  insert Cerr what ;;
  endl Cerr ;;
  ret 1%Z.

(** [try { body } catch (const std::exception& e) { h (e.what()) }]: the
    handler matches objects derived from [std::exception] and no others. *)
Definition try_catch_std_exception {A : Type}
  (body : M process A) (h : string -> M process A) : M process A :=
  fun p =>
    match body p with
    | Done a p' => Done a p'
    | Raised (Derived what) p' => h what p'
    | Raised (Unrelated tag) p' => Raised (Unrelated tag) p'
    end.

Definition main : M process Z :=
  try_catch_std_exception try_block handler.

(** ** Running the program *)

(** What the process finds when [main] is entered: the devices behind the
    two streams, the size of the put area of [std::cout] ([std::cerr] is
    unbuffered), and the exception masks.  [main] never touches a mask;
    [ios_base::Init] leaves both at [goodbit], and only code that runs
    before [main] can have changed them: a world whose masks are not
    [goodbit] is not one the program, alone in its process, runs in. *)
Record world : Type := mkworld {
  cout_exceptions : Z;
  cout_capacity : nat;
  stdout_device : Ios.device;
  ios_failure_text : string;
  cerr_exceptions : Z;
  stderr_device : Ios.device
}.

Definition boot (w : world) : process :=
  mkprocess
    (Ios.open (cout_exceptions w) (cout_capacity w) (stdout_device w)
              (ios_failure_text w))
    (Ios.open (cerr_exceptions w) 0 (stderr_device w) (ios_failure_text w)).

(** The environment hands the program arguments and environment variables as
    well; [int main()] has no parameter to receive them and its body calls
    nothing that reads them. *)
Record invocation : Type := mkinvocation {
  argv : list string;
  environ : list (string * string);
  streams : world
}.

Definition execute (i : invocation) : outcome process Z :=
  main (boot (streams i)).

(** What can be seen from outside: the bytes that reached the two devices and
    how the process ended ([None]: by an exception that left [main]). *)
Definition stdout_bytes (r : outcome process Z) : string :=
  Ios.delivered (cout (final r)).

Definition stderr_bytes (r : outcome process Z) : string :=
  Ios.delivered (cerr (final r)).

Definition exit_status (r : outcome process Z) : option Z := value r.

Definition greeting_line : string := greeting ++ String newline "".

Definition diagnostic_line (what : string) : string :=
  error_prefix ++ what ++ String newline "".

(** The stream is healthy: its device takes what it is handed. *)
Definition healthy (w : world) : Prop := stdout_device w = Ios.Accepting.

(** The output statement of the [try] block, run in [w]. *)
Definition output_statement (w : world) : outcome process Z :=
  try_block (boot w).

(** The write failed: after the output statement [std::cout] is not good. *)
Definition write_failed (w : world) : bool :=
  negb (Ios.good (cout (final (output_statement w)))).

(** A computation on the process is quiet when, started with the default
    mask on [std::cout], it ends normally and leaves the mask as it was. *)
Definition quiet {A : Type} (m : M process A) : Prop :=
  forall p,
    Ios.exceptions (cout p) = Ios.goodbit ->
    raised (m p) = None /\
    Ios.exceptions (cout (final (m p))) = Ios.goodbit.

(** The ways [main] can end in [w], with what the output statement did. *)
Inductive run_of (w : world) : outcome process Z -> Prop :=
| run_greeted p :
    healthy w ->
    output_statement w = Done 0%Z p ->
    cout p = Ios.mkstream Ios.goodbit (cout_exceptions w) (cout_capacity w)
                          "" Ios.Accepting greeting_line
                          (ios_failure_text w) ->
    cerr p = cerr (boot w) ->
    run_of w (Done 0%Z p)
| run_silent p :
    ~ healthy w ->
    output_statement w = Done 0%Z p ->
    Ios.delivered (cout p) = "" ->
    Ios.bad (cout p) = true ->
    cerr p = cerr (boot w) ->
    run_of w (Done 0%Z p)
| run_rethrown what p q :
    ~ healthy w ->
    output_statement w = Raised (Derived what) p ->
    Ios.delivered (cout p) = "" ->
    Ios.bad (cout p) = true ->
    Ios.delivered (cout q) = "" ->
    cerr q = cerr (boot w) ->
    run_of w (Raised (Derived (ios_failure_text w)) q)
| run_escaped tag p :
    ~ healthy w ->
    output_statement w = Raised (Unrelated tag) p ->
    Ios.delivered (cout p) = "" ->
    Ios.bad (cout p) = true ->
    cerr p = cerr (boot w) ->
    run_of w (Raised (Unrelated tag) p).

(** *** Some environments *)

Definition libstdcxx_text : string := "basic_ios::clear: iostream error".

(** A terminal: nothing goes wrong. *)
Definition a_terminal : world :=
  mkworld Ios.goodbit 0 Ios.Accepting libstdcxx_text
          Ios.goodbit Ios.Accepting.

(** A pipe into a reader, behind a put area of 4096 characters. *)
Definition a_pipe : world :=
  mkworld Ios.goodbit 4096 Ios.Accepting libstdcxx_text
          Ios.goodbit Ios.Accepting.

(** Standard output closed by the parent ([>&-]). *)
Definition closed_stdout : world :=
  mkworld Ios.goodbit 0 Ios.Rejecting libstdcxx_text
          Ios.goodbit Ios.Accepting.

(** Standard output on a full disk, behind a put area. *)
Definition full_disk : world :=
  mkworld Ios.goodbit 4096 Ios.Rejecting libstdcxx_text
          Ios.goodbit Ios.Accepting.


(** A buffer that throws a standard exception, [badbit] in the mask. *)
Definition buffer_throwing_standard : world :=
  mkworld Ios.badbit 16 (Ios.Raising (Derived "std::bad_alloc"))
          libstdcxx_text
          Ios.goodbit Ios.Accepting.

(** A buffer that throws an object of another type, [badbit] in the mask. *)
Definition buffer_throwing_int : world :=
  mkworld Ios.badbit 0 (Ios.Raising (Unrelated 7)) libstdcxx_text
          Ios.goodbit Ios.Accepting.

(** A buffer that throws, under the default mask. *)
Definition buffer_throwing_default : world :=
  mkworld Ios.goodbit 8 (Ios.Raising (Derived "std::bad_alloc"))
          libstdcxx_text
          Ios.goodbit Ios.Accepting.

Definition buffer_throwing_int_buffered : world :=
  mkworld (Z.lor Ios.badbit Ios.failbit) 64 (Ios.Raising (Unrelated 42))
          libstdcxx_text
          Ios.goodbit Ios.Accepting.

(** Standard output closed and standard error closed, default masks. *)
Definition both_closed : world :=
  mkworld Ios.goodbit 512 Ios.Rejecting libstdcxx_text
          Ios.goodbit Ios.Rejecting.

(** Standard output on a pipe whose reader is gone, [SIGPIPE] ignored. *)
Definition reader_gone : world :=
  mkworld Ios.goodbit 1024 Ios.Rejecting libstdcxx_text
          Ios.goodbit Ios.Accepting.

(** Two invocations that differ in arguments, environment, put area. *)
Definition from_a_shell : invocation :=
  mkinvocation ["--name"; "Ada"] [("LANG", "C")] a_terminal.

Definition from_a_script : invocation :=
  mkinvocation [] [("TZ", "UTC")] a_pipe.

(** ** Frames and states other than a fresh process *)

(** Two streams have the same setup: exception mask, size of the put area,
    device and failure text. *)
Definition same_setup (a b : Ios.ostream) : Prop :=
  Ios.exceptions a = Ios.exceptions b /\
  Ios.capacity a = Ios.capacity b /\
  Ios.sink a = Ios.sink b /\
  Ios.failure_text a = Ios.failure_text b.

(** Both streams of [q] have the setup they have in [p0]. *)
Definition setup_kept (p0 q : process) : Prop :=
  same_setup (cout q) (cout p0) /\ same_setup (cerr q) (cerr p0).

(** [m] keeps the property [I] of the process, however it ends. *)
Definition preserving (I : process -> Prop) {A : Type} (m : M process A)
  : Prop :=
  forall p, I p -> I (final (m p)).

(** [main] entered after something else has written: a line already on the
    device, a prompt still in the put area. *)
Definition after_a_prompt : process :=
  mkprocess
    (Ios.mkstream Ios.goodbit Ios.goodbit 64 "> " Ios.Accepting
                  ("ready" ++ String newline "") libstdcxx_text)
    (Ios.open Ios.goodbit 0 Ios.Accepting libstdcxx_text).

(** [main] entered with [std::cout] already failed. *)
Definition stdout_already_failed : process :=
  mkprocess
    (Ios.mkstream Ios.failbit Ios.badbit 64 "lost" Ios.Accepting ""
                  libstdcxx_text)
    (Ios.open Ios.goodbit 0 Ios.Accepting libstdcxx_text).

(** Standard output closed with [badbit] in the mask, and [std::cerr]
    already failed. *)
Definition both_streams_failed : process :=
  mkprocess
    (Ios.open Ios.badbit 0 Ios.Rejecting libstdcxx_text)
    (Ios.mkstream Ios.badbit Ios.goodbit 0 "" Ios.Rejecting "" libstdcxx_text).

Ltac each_capacity cap := do 15 (try destruct cap as [|cap]).

(** * Properties *)

(** ** Error bits *)

Lemma lor_badbit_is_bad (st : Z) :
  (Z.land (Z.lor st Ios.badbit) Ios.badbit =? 0)%Z = false.
Proof.
  apply Z.eqb_neq; rewrite Z.land_lor_distr_l; intros Habs.
  apply Z.lor_eq_0_iff in Habs; destruct Habs as [_ Habs].
  discriminate Habs.
Qed.

Lemma lor_failbit_keeps_bad (st : Z) :
  Z.land (Z.lor st Ios.failbit) Ios.badbit = Z.land st Ios.badbit.
Proof.
  rewrite Z.land_lor_distr_l.
  change (Z.land Ios.failbit Ios.badbit) with 0%Z; apply Z.lor_0_r.
Qed.

Lemma selected_lor_l (m st b : Z) :
  Z.land m st <> 0%Z -> Z.land m (Z.lor st b) <> 0%Z.
Proof.
  rewrite Z.land_lor_distr_r; intros Hsel Habs.
  apply Z.lor_eq_0_iff in Habs; tauto.
Qed.

Lemma selected_lor_r (m st b : Z) :
  Z.land m b <> 0%Z -> Z.land m (Z.lor st b) <> 0%Z.
Proof.
  rewrite Z.land_lor_distr_r; intros Hsel Habs.
  apply Z.lor_eq_0_iff in Habs; tauto.
Qed.

Lemma lor_is_not_goodbit (st b : Z) :
  st <> 0%Z -> (Z.lor st b =? Ios.goodbit)%Z = false.
Proof.
  intros Hst; apply Z.eqb_neq; intros Habs.
  apply Z.lor_eq_0_iff in Habs; tauto.
Qed.

(** ** Stream operations *)

Module IosFacts.
Import Ios.

Lemma bad_not_good (os : ostream) : bad os = true -> good os = false.
Proof.
  unfold bad, good.
  destruct (rdstate os =? goodbit)%Z eqn:Hst; [| reflexivity].
  apply Z.eqb_eq in Hst; rewrite Hst; discriminate.
Qed.

Lemma not_good_state (os : ostream) : good os = false -> rdstate os <> 0%Z.
Proof. unfold good; intros Hst; apply Z.eqb_neq; exact Hst. Qed.

Lemma sentry_untied_good (os : ostream) :
  good os = true -> sentry_untied os = Done true os.
Proof. unfold sentry_untied; intros ->; reflexivity. Qed.

Lemma guarded_good (body : M ostream unit) (os : ostream) :
  good os = true -> guarded body os = body os.
Proof.
  intros Hgood; unfold guarded, bind.
  rewrite (sentry_untied_good os Hgood); reflexivity.
Qed.

(** On a stream that has failed without being bad (failbit or eofbit only)
    an output function does nothing. *)
Lemma guarded_idle (body : M ostream unit) (os : ostream) :
  good os = false -> bad os = false -> guarded body os = Done tt os.
Proof.
  intros Hgood Hbad; unfold guarded, bind, sentry_untied.
  rewrite Hgood, Hbad; reflexivity.
Qed.

(** On a stream that is not good an output function writes nothing: the
    device and the put area stay as they are, and the stream stays not
    good. *)
Lemma guarded_not_good_frame (body : M ostream unit) (os : ostream) :
  good os = false ->
  good (final (guarded body os)) = false /\
  delivered (final (guarded body os)) = delivered os /\
  pending (final (guarded body os)) = pending os.
Proof.
  intros Hgood; unfold guarded, bind, sentry_untied; rewrite Hgood.
  destruct (bad os); [| repeat split; exact Hgood].
  unfold setstate, clear, bind, ret; cbn [set_rdstate exceptions rdstate].
  destruct (Z.land _ _ =? 0)%Z; cbn [final];
    (split; [| split; reflexivity]);
    apply lor_is_not_goodbit, not_good_state, Hgood.
Qed.

(** The same under the default mask: the function returns. *)
Lemma guarded_not_good_default_mask (body : M ostream unit) (os : ostream) :
  good os = false ->
  exceptions os = goodbit ->
  exists os',
    guarded body os = Done tt os' /\
    good os' = false /\ exceptions os' = goodbit /\
    delivered os' = delivered os /\ pending os' = pending os.
Proof.
  intros Hgood Hmask; unfold guarded, bind, sentry_untied; rewrite Hgood.
  destruct (bad os); [| exists os; repeat split; assumption].
  unfold setstate, clear, bind, ret; cbn [set_rdstate exceptions rdstate].
  rewrite Hmask; unfold goodbit at 1; cbn [Z.land Z.eqb].
  eexists; split; [reflexivity |].
  split; [apply lor_is_not_goodbit, not_good_state, Hgood |].
  split; [exact Hmask | split; reflexivity].
Qed.

Lemma sputn_exceptions (s : string) (os : ostream) :
  exceptions (final (sputn s os)) = exceptions os.
Proof.
  unfold sputn, transfer.
  destruct (String.length (pending os ++ s) <=? capacity os)%nat;
    [reflexivity | destruct (sink os); reflexivity].
Qed.

Lemma pubsync_exceptions (os : ostream) :
  exceptions (final (pubsync os)) = exceptions os.
Proof.
  unfold pubsync, transfer.
  destruct (pending os); [reflexivity | destruct (sink os); reflexivity].
Qed.

Section DefaultMask.

Variable attempt : M ostream bool.
Hypothesis attempt_keeps_mask :
  forall os, exceptions (final (attempt os)) = exceptions os.

Variable os : ostream.
Hypothesis mask_empty : exceptions os = goodbit.

(** With the default mask [clear] stores the state and returns. *)
Lemma clear_default_mask (st : Z) :
  clear st os = Done tt (set_rdstate st os).
Proof.
  unfold clear; cbn [exceptions set_rdstate].
  rewrite mask_empty; reflexivity.
Qed.

(** With the default mask an output function never throws: a failed
    insertion and an exception of the buffer both end in the error state. *)
Lemma output_default_mask :
  raised (output attempt os) = None /\
  exceptions (final (output attempt os)) = goodbit.
Proof.
  pose proof (attempt_keeps_mask os) as Hk.
  unfold output.
  destruct (attempt os) as [[|] os'|e os']; cbn [final] in Hk;
    rewrite mask_empty in Hk.
  - split; [reflexivity | exact Hk].
  - unfold setstate, clear; cbn [exceptions set_rdstate].
    rewrite Hk; split; reflexivity || exact Hk.
  - unfold set_badbit_and_rethrow; cbn [exceptions set_rdstate].
    rewrite Hk; split; reflexivity || exact Hk.
Qed.

(** Nor does its sentry. *)
Lemma guarded_default_mask :
  raised (guarded (output attempt) os) = None /\
  exceptions (final (guarded (output attempt) os)) = goodbit.
Proof.
  destruct (good os) eqn:Hgood.
  - rewrite (guarded_good _ os Hgood); exact output_default_mask.
  - destruct (guarded_not_good_default_mask (output attempt) os
                Hgood mask_empty) as (os' & -> & _ & Hmask & _).
    split; [reflexivity | exact Hmask].
Qed.

End DefaultMask.

(** *** What a throw leaves behind *)

(** An output function that throws leaves the stream bad, with a bit set
    that the mask selects. *)
Lemma output_raise_selected (attempt : M ostream bool)
  (os : ostream) (e : thrown) (os' : ostream) :
  output attempt os = Raised e os' ->
  bad os' = true /\ Z.land (exceptions os') (rdstate os') <> 0%Z.
Proof.
  unfold output.
  destruct (attempt os) as [[|] os1|e1 os1]; [discriminate | |].
  - unfold setstate, clear; cbn [exceptions set_rdstate rdstate].
    destruct (Z.land _ _ =? 0)%Z eqn:Hsel; [discriminate |].
    intros Heq; injection Heq as _ <-; unfold bad; cbn [rdstate exceptions set_rdstate].
    split; [rewrite lor_badbit_is_bad; reflexivity |].
    apply Z.eqb_neq; exact Hsel.
  - unfold set_badbit_and_rethrow; cbn [exceptions set_rdstate].
    destruct (Z.land _ _ =? 0)%Z eqn:Hsel; [discriminate |].
    intros Heq; injection Heq as _ <-; unfold bad; cbn [rdstate exceptions set_rdstate].
    split; [rewrite lor_badbit_is_bad; reflexivity |].
    apply selected_lor_r, Z.eqb_neq; exact Hsel.
Qed.

Lemma guarded_raise_selected (attempt : M ostream bool)
  (os : ostream) (e : thrown) (os' : ostream) :
  guarded (output attempt) os = Raised e os' ->
  bad os' = true /\ Z.land (exceptions os') (rdstate os') <> 0%Z.
Proof.
  unfold guarded, bind, sentry_untied.
  destruct (good os); [apply output_raise_selected |].
  destruct (bad os) eqn:Hbad; [| discriminate].
  unfold setstate, clear, bind, ret; cbn [exceptions set_rdstate rdstate].
  destruct (Z.land _ _ =? 0)%Z eqn:Hsel; [discriminate |].
  intros Heq; injection Heq as _ <-; unfold bad in *; cbn [rdstate exceptions set_rdstate].
  split; [rewrite lor_failbit_keeps_bad; exact Hbad |].
  apply Z.eqb_neq; exact Hsel.
Qed.

(** The flush of a stream that is bad under a mask that selects a set bit:
    its sentry throws [ios_base::failure]. *)
Lemma flush_untied_of_selected (os : ostream) :
  bad os = true ->
  Z.land (exceptions os) (rdstate os) <> 0%Z ->
  flush_untied os =
  Raised (Derived (failure_text os))
         (set_rdstate (Z.lor (rdstate os) failbit) os).
Proof.
  intros Hbad Hsel.
  unfold flush_untied, guarded, sentry_untied, bind.
  rewrite (bad_not_good os Hbad), Hbad.
  unfold setstate, clear, ret;
    cbn [exceptions set_rdstate rdstate failure_text].
  apply (selected_lor_l _ _ failbit), Z.eqb_neq in Hsel.
  rewrite Hsel; reflexivity.
Qed.

(** *** What an output function never changes *)

Lemma same_setup_refl (os : ostream) : same_setup os os.
Proof. repeat split. Qed.

Lemma same_setup_trans (a b c : ostream) :
  same_setup a b -> same_setup b c -> same_setup a c.
Proof.
  intros (E1 & E2 & E3 & E4) (F1 & F2 & F3 & F4).
  repeat split; congruence.
Qed.

Lemma sputn_setup (s : string) (os : ostream) :
  same_setup (final (sputn s os)) os.
Proof.
  unfold sputn, transfer.
  destruct (String.length (pending os ++ s) <=? capacity os)%nat;
    [| destruct (sink os)]; first [apply same_setup_refl | repeat split].
Qed.

Lemma pubsync_setup (os : ostream) :
  same_setup (final (pubsync os)) os.
Proof.
  unfold pubsync, transfer.
  destruct (pending os); [| destruct (sink os)];
    first [apply same_setup_refl | repeat split].
Qed.

Lemma output_setup (attempt : M ostream bool) :
  (forall os, same_setup (final (attempt os)) os) ->
  forall os, same_setup (final (output attempt os)) os.
Proof.
  intros Hk os; specialize (Hk os); unfold output.
  destruct (attempt os) as [[|] os'|e os']; cbn [final] in Hk.
  - exact Hk.
  - apply (same_setup_trans _ os'); [| exact Hk].
    unfold setstate, clear.
    destruct (Z.land _ _ =? 0)%Z; repeat split.
  - apply (same_setup_trans _ os'); [| exact Hk].
    unfold set_badbit_and_rethrow.
    destruct (Z.land _ _ =? 0)%Z; repeat split.
Qed.

Lemma guarded_setup (body : M ostream unit) :
  (forall os, same_setup (final (body os)) os) ->
  forall os, same_setup (final (guarded body os)) os.
Proof.
  intros Hk os; unfold guarded, sentry_untied, bind.
  destruct (good os); [apply Hk |].
  destruct (bad os); [| apply same_setup_refl].
  unfold setstate, clear, ret.
  destruct (Z.land _ _ =? 0)%Z; repeat split.
Qed.

(** *** A device that does not accept *)

Lemma append_not_empty (pend s : string) : s <> "" -> pend ++ s <> "".
Proof.
  intros Hs; destruct pend as [|c pend]; [exact Hs | discriminate].
Qed.

(** A device that does not accept is never handed anything for good. *)
Lemma sputn_never_delivers (s : string) (os : ostream) :
  sink os <> Accepting -> delivered (final (sputn s os)) = delivered os.
Proof.
  intros Hsink; unfold sputn, transfer.
  destruct (String.length (pending os ++ s) <=? capacity os)%nat;
    [reflexivity |].
  destruct (sink os); [exfalso; apply Hsink; reflexivity |..]; reflexivity.
Qed.

Lemma pubsync_never_delivers (os : ostream) :
  sink os <> Accepting -> delivered (final (pubsync os)) = delivered os.
Proof.
  intros Hsink; unfold pubsync, transfer.
  destruct (pending os); [reflexivity |].
  destruct (sink os); [exfalso; apply Hsink; reflexivity |..]; reflexivity.
Qed.

Lemma guarded_output_never_delivers (attempt : M ostream bool)
  (os : ostream) :
  delivered (final (attempt os)) = delivered os ->
  delivered (final (guarded (output attempt) os)) = delivered os.
Proof.
  intros Hk.
  destruct (good os) eqn:Hgood;
    [| exact (proj1 (proj2 (guarded_not_good_frame _ os Hgood)))].
  rewrite (guarded_good _ os Hgood); unfold output.
  destruct (attempt os) as [[|] os'|e os']; cbn [final] in Hk.
  - exact Hk.
  - unfold setstate, clear.
    destruct (Z.land _ _ =? 0)%Z; exact Hk.
  - unfold set_badbit_and_rethrow.
    destruct (Z.land _ _ =? 0)%Z; exact Hk.
Qed.

(** A stream that is bad stays bad. *)
Lemma guarded_stays_bad (body : M ostream unit) (os : ostream) :
  bad os = true -> bad (final (guarded body os)) = true.
Proof.
  intros Hbad; unfold guarded, sentry_untied, bind.
  rewrite (bad_not_good os Hbad), Hbad.
  unfold setstate, clear, ret.
  destruct (Z.land _ _ =? 0)%Z; unfold bad in *;
    cbn [final rdstate set_rdstate];
    rewrite lor_failbit_keeps_bad; exact Hbad.
Qed.

(** An insertion that the device refuses leaves the stream bad. *)
Lemma output_refused (attempt : M ostream bool) (os : ostream) :
  value (attempt os) <> Some true -> bad (final (output attempt os)) = true.
Proof.
  unfold output.
  destruct (attempt os) as [[|] os'|e os'];
    [intros H; exfalso; apply H; reflexivity | |]; intros _.
  - unfold setstate, clear.
    destruct (Z.land _ _ =? 0)%Z; unfold bad;
      cbn [final rdstate set_rdstate];
      rewrite lor_badbit_is_bad; reflexivity.
  - unfold set_badbit_and_rethrow.
    destruct (Z.land _ _ =? 0)%Z; unfold bad;
      cbn [final rdstate set_rdstate];
      rewrite lor_badbit_is_bad; reflexivity.
Qed.

Lemma transfer_refused (data : string) (os : ostream) :
  sink os <> Accepting -> value (transfer data os) <> Some true.
Proof.
  intros Hsink; unfold transfer.
  destruct (sink os); [exfalso; apply Hsink; reflexivity |..]; discriminate.
Qed.

(** In front of a device that does not accept, a stream that has been
    handed characters is bad, or good with characters in its put area. *)
Lemma insertion_waits_or_fails (s : string) (os : ostream) :
  sink os <> Accepting ->
  s <> "" ->
  bad os = true \/ good os = true ->
  bad (final (guarded (output (sputn s)) os)) = true \/
  (good (final (guarded (output (sputn s)) os)) = true /\
   pending (final (guarded (output (sputn s)) os)) <> "").
Proof.
  intros Hsink Hs [Hbad | Hgood];
    [left; apply guarded_stays_bad; exact Hbad |].
  rewrite (guarded_good _ os Hgood).
  pose proof (output_refused (sputn s) os) as Hrefused.
  unfold output, sputn in *.
  destruct (String.length (pending os ++ s) <=? capacity os)%nat.
  - right; split; [exact Hgood | apply append_not_empty; exact Hs].
  - left; apply Hrefused, transfer_refused; exact Hsink.
Qed.

(** And the flush of such a stream leaves it bad. *)
Lemma flush_fails (os : ostream) :
  sink os <> Accepting ->
  bad os = true \/ (good os = true /\ pending os <> "") ->
  bad (final (guarded (output pubsync) os)) = true.
Proof.
  intros Hsink [Hbad | [Hgood Hpend]];
    [apply guarded_stays_bad; exact Hbad |].
  rewrite (guarded_good _ os Hgood).
  apply output_refused; unfold pubsync.
  destruct (pending os); [exfalso; apply Hpend; reflexivity |].
  apply transfer_refused; exact Hsink.
Qed.

End IosFacts.

(** ** Operations on the process *)

Lemma bind_done {S A B : Type} (m : M S A) (k : A -> M S B)
  (s : S) (a : A) (s' : S) :
  m s = Done a s' -> bind m k s = k a s'.
Proof. unfold bind; intros ->; reflexivity. Qed.

Lemma bind_raised {S A B : Type} (m : M S A) (k : A -> M S B)
  (s : S) (e : thrown) (s' : S) :
  m s = Raised e s' -> bind m k s = Raised e s'.
Proof. unfold bind; intros ->; reflexivity. Qed.

Lemma on_final {A : Type} (id : stream_id) (m : M Ios.ostream A)
  (p : process) :
  stream id (final (on id m p)) = final (m (stream id p)).
Proof.
  unfold on; destruct (m (stream id p)); destruct id; reflexivity.
Qed.

Lemma on_raised {A : Type} (id : stream_id) (m : M Ios.ostream A)
  (p : process) :
  raised (on id m p) = raised (m (stream id p)).
Proof. unfold on; destruct (m (stream id p)); reflexivity. Qed.

Lemma on_cout_keeps_cerr {A : Type} (m : M Ios.ostream A) (p : process) :
  cerr (final (on Cout m p)) = cerr p.
Proof.
  unfold on; cbn [stream].
  destruct (m (cout p)); reflexivity.
Qed.

Lemma on_cerr_keeps_cout {A : Type} (m : M Ios.ostream A) (p : process) :
  cout (final (on Cerr m p)) = cout p.
Proof.
  unfold on; cbn [stream].
  destruct (m (cerr p)); reflexivity.
Qed.

(** [std::cout] is tied to nothing: its sentry is the sentry of the stream
    alone, and each of its output functions is one operation on it. *)
Lemma sentry_cout (p : process) :
  sentry Cout p = on Cout Ios.sentry_untied p.
Proof.
  unfold sentry, flush_tied, bind; cbn [tie].
  destruct (Ios.good (stream Cout p)); reflexivity.
Qed.

Lemma guarded_on_cout (body : M Ios.ostream unit) (p : process) :
  (ok <- sentry Cout ;; if ok : bool then on Cout body else ret tt) p =
  on Cout (Ios.guarded body) p.
Proof.
  unfold bind at 1; rewrite sentry_cout.
  unfold on, Ios.guarded, bind; cbn [stream].
  destruct (Ios.sentry_untied (cout p)) as [[|] os|e os];
    destruct p as [c e0]; cbn [update cout cerr stream]; reflexivity.
Qed.

(** The same for [std::cerr] once it is not good: the tied stream is not
    flushed. *)
Lemma guarded_on_failed_cerr (body : M Ios.ostream unit) (p : process) :
  Ios.good (cerr p) = false ->
  (ok <- sentry Cerr ;; if ok : bool then on Cerr body else ret tt) p =
  on Cerr (Ios.guarded body) p.
Proof.
  intros Hgood.
  unfold sentry, flush_tied, bind at 1, bind at 1; cbn [stream].
  rewrite Hgood.
  unfold on, Ios.guarded, bind; cbn [stream].
  destruct (Ios.sentry_untied (cerr p)) as [[|] os|e os];
    destruct p as [c e0]; cbn [update cout cerr stream]; reflexivity.
Qed.

(** *** Invariants *)

Lemma preserving_ret (I : process -> Prop) {A : Type} (a : A) :
  preserving I (ret a).
Proof. intros p Hp; exact Hp. Qed.

Lemma preserving_bind (I : process -> Prop) {A B : Type}
  (m : M process A) (k : A -> M process B) :
  preserving I m -> (forall a, preserving I (k a)) ->
  preserving I (bind m k).
Proof.
  intros Hm Hk p Hp; specialize (Hm p Hp); unfold bind.
  destruct (m p) as [a p'|e p']; [apply Hk |]; exact Hm.
Qed.

Lemma preserving_guarded_on_cout (I : process -> Prop)
  (body : M Ios.ostream unit) :
  preserving I (on Cout (Ios.guarded body)) ->
  preserving I
    (ok <- sentry Cout ;; if ok : bool then on Cout body else ret tt).
Proof. intros Hb p Hp; rewrite guarded_on_cout; apply Hb; exact Hp. Qed.

(** What holds of the process and is kept by the insertions and the flush
    of [std::cout] is kept by the [try] block. *)
Lemma preserving_try_block (I : process -> Prop) :
  (forall s,
      preserving I (on Cout (Ios.guarded (Ios.output (Ios.sputn s))))) ->
  preserving I (on Cout (Ios.guarded (Ios.output Ios.pubsync))) ->
  preserving I try_block.
Proof.
  intros Hs Hp; unfold try_block, endl, insert, put, flush.
  repeat (apply preserving_bind; [| intros _]);
    try apply preserving_ret; apply preserving_guarded_on_cout;
    [apply Hs | apply (Hs (String newline "")) | apply Hp].
Qed.

Lemma try_block_keeps_cerr (p : process) :
  cerr (final (try_block p)) = cerr p.
Proof.
  apply (preserving_try_block (fun q => cerr q = cerr p));
    [intros s | | reflexivity];
    intros q Hq; rewrite on_cout_keeps_cerr; exact Hq.
Qed.

Lemma insert_cout (s : string) (p : process) :
  insert Cout s p = on Cout (Ios.guarded (Ios.output (Ios.sputn s))) p.
Proof. unfold insert; apply guarded_on_cout. Qed.

Lemma put_cout (c : ascii) (p : process) :
  put Cout c p = on Cout (Ios.guarded (Ios.output (Ios.sputc c))) p.
Proof. unfold put; apply guarded_on_cout. Qed.

Lemma flush_cout (p : process) :
  flush Cout p = on Cout (Ios.guarded (Ios.output Ios.pubsync)) p.
Proof. unfold flush; apply guarded_on_cout. Qed.

Lemma cout_after {A : Type} (m : M Ios.ostream A) (p : process)
  (r : outcome process A) :
  on Cout m p = r -> cout (final r) = final (m (cout p)).
Proof. intros <-; exact (on_final Cout m p). Qed.

Lemma cerr_after {A : Type} (m : M Ios.ostream A) (p : process)
  (r : outcome process A) :
  on Cerr m p = r -> cerr (final r) = final (m (cerr p)).
Proof. intros <-; exact (on_final Cerr m p). Qed.

Lemma try_block_keeps_cout_setup (p : process) :
  same_setup (cout (final (try_block p))) (cout p).
Proof.
  assert (Hstep : forall attempt : M Ios.ostream bool,
             (forall os, same_setup (final (attempt os)) os) ->
             preserving (fun q => same_setup (cout q) (cout p))
               (on Cout (Ios.guarded (Ios.output attempt)))).
  { intros attempt Hsetup q Hq.
    rewrite (cout_after _ q _ eq_refl).
    eapply IosFacts.same_setup_trans; [| exact Hq].
    apply IosFacts.guarded_setup, IosFacts.output_setup, Hsetup. }
  apply (preserving_try_block (fun q => same_setup (cout q) (cout p)));
    [intros s | | apply IosFacts.same_setup_refl]; apply Hstep;
    first [apply IosFacts.sputn_setup | apply IosFacts.pubsync_setup].
Qed.

(** *** A device that does not accept *)

Lemma guarded_output_keeps_refusing (attempt : M Ios.ostream bool)
  (os : Ios.ostream) :
  (forall os, same_setup (final (attempt os)) os) ->
  Ios.sink os <> Ios.Accepting ->
  Ios.sink (final (Ios.guarded (Ios.output attempt) os)) <> Ios.Accepting.
Proof.
  intros Hsetup Hsink.
  destruct (IosFacts.guarded_setup _
              (IosFacts.output_setup attempt Hsetup) os)
    as (_ & _ & Hsame & _).
  congruence.
Qed.

(** In front of a device that does not accept, the [try] block delivers
    nothing. *)
Lemma try_block_never_delivers (p : process) :
  Ios.sink (cout p) <> Ios.Accepting ->
  Ios.delivered (cout (final (try_block p))) = Ios.delivered (cout p).
Proof.
  intros Hsink.
  pose (I := fun q : process =>
               Ios.sink (cout q) = Ios.sink (cout p) /\
               Ios.delivered (cout q) = Ios.delivered (cout p)).
  assert (Hall : preserving I try_block);
    [| exact (proj2 (Hall p (conj eq_refl eq_refl)))].
  assert (Hstep : forall attempt : M Ios.ostream bool,
             (forall os, same_setup (final (attempt os)) os) ->
             (forall os, Ios.sink os <> Ios.Accepting ->
                         Ios.delivered (final (attempt os)) =
                         Ios.delivered os) ->
             preserving I (on Cout (Ios.guarded (Ios.output attempt)))).
  { intros attempt Hsetup Hnever q [Hs Hd]; unfold I.
    rewrite (cout_after _ q _ eq_refl).
    destruct (IosFacts.guarded_setup _
                (IosFacts.output_setup attempt Hsetup) (cout q))
      as (_ & _ & Hsame & _).
    split; [congruence |].
    rewrite IosFacts.guarded_output_never_delivers; [exact Hd |].
    apply Hnever; congruence. }
  apply preserving_try_block; [intros s |]; apply Hstep;
    first [apply IosFacts.sputn_setup | apply IosFacts.pubsync_setup
          | apply IosFacts.sputn_never_delivers
          | apply IosFacts.pubsync_never_delivers].
Qed.

(** *** The default mask *)

Lemma quiet_ret {A : Type} (a : A) : quiet (ret a).
Proof. intros p Hp; split; [reflexivity | exact Hp]. Qed.

Lemma quiet_bind {A B : Type} (m : M process A) (k : A -> M process B) :
  quiet m -> (forall a, quiet (k a)) -> quiet (bind m k).
Proof.
  intros Hm Hk p Hp.
  destruct (Hm p Hp) as [Hr Hx].
  unfold bind.
  destruct (m p) as [a p'|e p']; [apply Hk; exact Hx | discriminate Hr].
Qed.

Lemma quiet_output_on_cout (attempt : M Ios.ostream bool) :
  (forall os, Ios.exceptions (final (attempt os)) = Ios.exceptions os) ->
  quiet (ok <- sentry Cout ;;
         if ok : bool then on Cout (Ios.output attempt) else ret tt).
Proof.
  intros Hk p Hp.
  rewrite guarded_on_cout, on_raised.
  change (cout (final (on Cout (Ios.guarded (Ios.output attempt)) p)))
    with (stream Cout
            (final (on Cout (Ios.guarded (Ios.output attempt)) p))).
  rewrite on_final.
  exact (IosFacts.guarded_default_mask attempt Hk (cout p) Hp).
Qed.

(** With the default mask the output statement of [main] never throws. *)
Lemma quiet_try_block : quiet try_block.
Proof.
  unfold try_block, endl, insert, put, flush.
  repeat (apply quiet_bind; [| intros _]);
    try apply quiet_ret; apply quiet_output_on_cout;
    intro os; first [apply IosFacts.sputn_exceptions
                    | apply IosFacts.pubsync_exceptions].
Qed.

(** *** Values *)

(** Whatever the state it starts in, the [try] block returns 0 when it
    returns. *)
Lemma try_block_value (p : process) (v : Z) :
  value (try_block p) = Some v -> v = 0%Z.
Proof.
  unfold try_block, endl, bind, ret.
  destruct (insert Cout greeting p) as [[] p1|e p1]; [| discriminate].
  destruct (put Cout newline p1) as [[] p2|e p2]; [| discriminate].
  destruct (flush Cout p2) as [[] p3|e p3]; [| discriminate].
  cbn; congruence.
Qed.

(** And the handler returns 1 when it returns. *)
Lemma handler_value (what : string) (p : process) (v : Z) :
  value (handler what p) = Some v -> v = 1%Z.
Proof.
  unfold handler, endl, bind, ret.
  destruct (insert Cerr error_prefix p) as [[] p1|e p1]; [| discriminate].
  destruct (insert Cerr what p1) as [[] p2|e p2]; [| discriminate].
  destruct (put Cerr newline p2) as [[] p3|e p3]; [| discriminate].
  destruct (flush Cerr p3) as [[] p4|e p4]; [| discriminate].
  cbn; congruence.
Qed.

(** *** A throw of the output statement *)

Lemma guarded_on_cout_raise_selected (attempt : M Ios.ostream bool)
  (p : process) (e : thrown) (q : process) :
  (ok <- sentry Cout ;;
   if ok : bool then on Cout (Ios.output attempt) else ret tt) p =
    Raised e q ->
  Ios.bad (cout q) = true /\
  Z.land (Ios.exceptions (cout q)) (Ios.rdstate (cout q)) <> 0%Z.
Proof.
  rewrite guarded_on_cout; unfold on; cbn [stream].
  pose proof (IosFacts.guarded_raise_selected attempt (cout p)) as Hsel.
  destruct (Ios.guarded (Ios.output attempt) (cout p)) as [u os'|e' os'];
    [discriminate |].
  intros Heq; injection Heq as _ <-.
  exact (Hsel e' os' eq_refl).
Qed.

(** Whatever the state it starts in, the [try] block that throws leaves
    [std::cout] bad, with a bit set that its mask selects. *)
Lemma try_block_raise_selected (p : process) (e : thrown) (q : process) :
  try_block p = Raised e q ->
  Ios.bad (cout q) = true /\
  Z.land (Ios.exceptions (cout q)) (Ios.rdstate (cout q)) <> 0%Z.
Proof.
  unfold try_block, endl, bind, ret.
  destruct (insert Cout greeting p) as [[] p1|e1 p1] eqn:H1.
  - destruct (put Cout newline p1) as [[] p2|e2 p2] eqn:H2.
    + destruct (flush Cout p2) as [[] p3|e3 p3] eqn:H3; [discriminate |].
      intros Heq; injection Heq as _ <-.
      exact (guarded_on_cout_raise_selected Ios.pubsync _ _ _ H3).
    + intros Heq; injection Heq as _ <-.
      exact (guarded_on_cout_raise_selected (Ios.sputc newline) _ _ _ H2).
  - intros Heq; injection Heq as _ <-.
    exact (guarded_on_cout_raise_selected (Ios.sputn greeting) _ _ _ H1).
Qed.

(** Entered with [std::cout] good in front of a device that does not
    accept, the [try] block leaves it bad, however it ends and whatever the
    size of the put area. *)
Lemma try_block_fails (p : process) :
  Ios.good (cout p) = true ->
  Ios.sink (cout p) <> Ios.Accepting ->
  Ios.bad (cout (final (try_block p))) = true.
Proof.
  intros Hgood Hsink.
  destruct (try_block p) as [v q|e q] eqn:Htry;
    [| exact (proj1 (try_block_raise_selected p e q Htry))].
  unfold try_block, endl, bind, ret in Htry.
  destruct (insert Cout greeting p) as [[] p1|e1 p1] eqn:E1;
    [| discriminate].
  destruct (put Cout newline p1) as [[] p2|e2 p2] eqn:E2; [| discriminate].
  destruct (flush Cout p2) as [[] p3|e3 p3] eqn:E3; [| discriminate].
  injection Htry as _ <-.
  rewrite insert_cout in E1; apply cout_after in E1.
  rewrite put_cout in E2; apply cout_after in E2.
  rewrite flush_cout in E3; apply cout_after in E3.
  cbn [final] in *.
  assert (S1 : Ios.sink (cout p1) <> Ios.Accepting)
    by (rewrite E1; apply guarded_output_keeps_refusing;
        [apply IosFacts.sputn_setup | exact Hsink]).
  assert (S2 : Ios.sink (cout p2) <> Ios.Accepting)
    by (rewrite E2; apply guarded_output_keeps_refusing;
        [apply IosFacts.sputn_setup | exact S1]).
  assert (K1 : Ios.bad (cout p1) = true \/ Ios.good (cout p1) = true).
  { rewrite E1.
    destruct (IosFacts.insertion_waits_or_fails greeting (cout p) Hsink)
      as [Hb | [Hg _]]; [discriminate | right; exact Hgood | left | right];
      assumption. }
  rewrite E3; apply IosFacts.flush_fails; [exact S2 |].
  rewrite E2.
  apply (IosFacts.insertion_waits_or_fails (String newline "") (cout p1));
    [exact S1 | discriminate | exact K1].
Qed.

(** Entered with [std::cerr] good and [std::cout] in that state, the
    handler does not get to write: the sentry of its first insertion
    flushes [std::cout], and the sentry of that flush throws
    [ios_base::failure]. *)
Lemma handler_rethrows (what : string) (q : process) :
  Ios.good (cerr q) = true ->
  Ios.bad (cout q) = true ->
  Z.land (Ios.exceptions (cout q)) (Ios.rdstate (cout q)) <> 0%Z ->
  handler what q =
  Raised (Derived (Ios.failure_text (cout q)))
         (mkprocess
            (Ios.set_rdstate (Z.lor (Ios.rdstate (cout q)) Ios.failbit)
                             (cout q))
            (cerr q)).
Proof.
  intros Hcerr Hbad Hsel.
  assert (Hsentry : sentry Cerr q =
            Raised (Derived (Ios.failure_text (cout q)))
              (mkprocess
                 (Ios.set_rdstate
                    (Z.lor (Ios.rdstate (cout q)) Ios.failbit) (cout q))
                 (cerr q))).
  { unfold sentry; apply bind_raised.
    unfold flush_tied; cbn [stream tie]; rewrite Hcerr.
    unfold on; cbn [stream].
    rewrite (IosFacts.flush_untied_of_selected (cout q) Hbad Hsel).
    reflexivity. }
  unfold handler, insert.
  apply bind_raised, bind_raised; exact Hsentry.
Qed.

(** ** The output statement in a fresh process, device by device *)

(** On an accepting device the statement ends normally, whatever the size of
    the put area: the line is on the device and nothing is left pending. *)
Lemma healthy_output_statement (mask : Z) (cap : nat) (text : string)
  (cmask : Z) (cdev : Ios.device) :
  output_statement (mkworld mask cap Ios.Accepting text cmask cdev) =
  Done 0%Z
    (mkprocess
       (Ios.mkstream Ios.goodbit mask cap "" Ios.Accepting greeting_line text)
       (Ios.open cmask 0 cdev text)).
Proof. each_capacity cap; reflexivity. Qed.

(** On any other device nothing is delivered and the stream ends bad,
    whatever the mask and however the statement ends. *)
Lemma failed_output_statement (mask : Z) (cap : nat) (d : Ios.device)
  (text : string) (cmask : Z) (cdev : Ios.device) :
  d <> Ios.Accepting ->
  let r := output_statement (mkworld mask cap d text cmask cdev) in
  Ios.delivered (cout (final r)) = "" /\ Ios.bad (cout (final r)) = true.
Proof.
  intros Hd r; subst r; unfold output_statement; split.
  - rewrite try_block_never_delivers; [reflexivity | exact Hd].
  - apply try_block_fails; [reflexivity | exact Hd].
Qed.

Lemma write_failed_after (w : world) (r : outcome process Z) :
  output_statement w = r ->
  Ios.bad (cout (final r)) = true ->
  write_failed w = true.
Proof.
  intros <- Hbad; unfold write_failed.
  rewrite (IosFacts.bad_not_good _ Hbad); reflexivity.
Qed.

Lemma write_succeeded_after (w : world) (r : outcome process Z) :
  output_statement w = r ->
  Ios.rdstate (cout (final r)) = Ios.goodbit ->
  write_failed w = false.
Proof.
  intros <- Hst; unfold write_failed, Ios.good.
  rewrite Hst; reflexivity.
Qed.

Lemma main_after_done (w : world) (v : Z) (p : process) :
  output_statement w = Done v p -> main (boot w) = Done v p.
Proof.
  unfold output_statement, main, try_catch_std_exception; intros ->.
  reflexivity.
Qed.

Lemma main_after_derived (w : world) (what : string) (p : process) :
  output_statement w = Raised (Derived what) p ->
  main (boot w) = handler what p.
Proof.
  unfold output_statement, main, try_catch_std_exception; intros ->.
  reflexivity.
Qed.

Lemma main_after_unrelated (w : world) (tag : Z) (p : process) :
  output_statement w = Raised (Unrelated tag) p ->
  main (boot w) = Raised (Unrelated tag) p.
Proof.
  unfold output_statement, main, try_catch_std_exception; intros ->.
  reflexivity.
Qed.

(** Every run of [main] in a fresh process is one of the four of
    [run_of]. *)
Lemma main_run_of (w : world) : run_of w (main (boot w)).
Proof.
  pose proof (try_block_keeps_cerr (boot w)) as Hcerr.
  fold (output_statement w) in Hcerr.
  destruct w as [mask cap d text cmask cdev].
  assert (Hd : d = Ios.Accepting \/ d <> Ios.Accepting)
    by (destruct d; [left; reflexivity | right; discriminate ..]).
  destruct Hd as [-> | Hd].
  - pose proof (healthy_output_statement mask cap text cmask cdev) as Hr.
    rewrite (main_after_done _ _ _ Hr).
    eapply run_greeted; [reflexivity | exact Hr | reflexivity ..].
  - destruct (failed_output_statement mask cap d text cmask cdev Hd)
      as (Hdel & Hbad).
    set (w := mkworld mask cap d text cmask cdev) in *.
    destruct (output_statement w) as [v p|[what|tag] p] eqn:Hr;
      cbn [final] in Hcerr, Hdel, Hbad.
    + assert (v = 0%Z) as ->
        by (apply (try_block_value (boot w)); fold (output_statement w);
            rewrite Hr; reflexivity).
      rewrite (main_after_done _ _ _ Hr).
      apply run_silent; auto.
    + rewrite (main_after_derived _ _ _ Hr).
      destruct (try_block_raise_selected (boot w) _ p Hr) as [_ Hsel].
      rewrite (handler_rethrows what p); [| rewrite Hcerr; reflexivity
                                          | exact Hbad | exact Hsel].
      pose proof (try_block_keeps_cout_setup (boot w)) as (_ & _ & _ & Ht).
      fold (output_statement w) in Ht; rewrite Hr in Ht; cbn [final] in Ht.
      rewrite Ht.
      eapply (run_rethrown w what p);
        [exact Hd | exact Hr | exact Hdel | exact Hbad | exact Hdel
        | exact Hcerr].
    + rewrite (main_after_unrelated _ _ _ Hr).
      apply run_escaped; auto.
Qed.

Ltac runs_of w :=
  destruct (main_run_of w)
    as [p Hh Hr Hc He | p Hh Hr Hd Hs He
       | what' p q Hh Hr Hd Hs Hq He | tag' p Hh Hr Hd Hs He].

(** [std::endl] is what empties the put area: after the first insertion
    alone, on a stream whose put area holds the greeting, the device has
    received nothing. *)
Lemma greeting_waits_for_endl (mask : Z) (cap : nat) (text : string) :
  (String.length greeting <= cap)%nat ->
  let p := final (insert Cout greeting
                    (boot (mkworld mask cap Ios.Accepting text
                                   Ios.goodbit Ios.Accepting))) in
  Ios.delivered (cout p) = "" /\ Ios.pending (cout p) = greeting.
Proof.
  change (String.length greeting) with 13%nat; intros Hcap.
  each_capacity cap; try lia; split; reflexivity.
Qed.

(** ** The success path *)

(** C1.  In every execution whose standard output device accepts the write,
    whatever the arguments, standard output receives exactly the bytes of
    [Hello, World!] and one line feed, standard error receives nothing, and
    [main] returns 0. *)
Theorem greeting_on_healthy_stdout (i : invocation) :
  healthy (streams i) ->
  stdout_bytes (execute i) = "Hello, World!" ++ String "010"%char "" /\
  stderr_bytes (execute i) = "" /\
  exit_status (execute i) = Some 0%Z.
Proof.
  destruct i as [args env [mask cap d text cmask cdev]].
  unfold healthy, execute.
  cbn [streams stdout_device]; intros ->.
  rewrite (main_after_done _ _ _
             (healthy_output_statement mask cap text cmask cdev)).
  repeat split.
Qed.

Lemma greeting_on_healthy_stdout_witness :
  healthy (streams (mkinvocation [] [] a_terminal)) /\
  stdout_bytes (execute (mkinvocation [] [] a_terminal)) =
    "Hello, World!" ++ String "010"%char "" /\
  stderr_bytes (execute (mkinvocation [] [] a_terminal)) = "" /\
  exit_status (execute (mkinvocation [] [] a_terminal)) = Some 0%Z.
Proof.
  split; [reflexivity |].
  apply (greeting_on_healthy_stdout (mkinvocation [] [] a_terminal)).
  reflexivity.
Defined.

(** C7.  On the success path (the output statement leaves [std::cout] good)
    the stream has been flushed when [main] returns: nothing is left in the
    put area, the whole line is on the device, and [main] returns 0. *)
Theorem success_path_is_flushed (w : world) :
  write_failed w = false ->
  Ios.pending (cout (final (main (boot w)))) = "" /\
  stdout_bytes (main (boot w)) = greeting_line /\
  exit_status (main (boot w)) = Some 0%Z.
Proof.
  intros Hok.
  runs_of w.
  - unfold stdout_bytes; cbn [final]; rewrite Hc; repeat split.
  - rewrite (write_failed_after w _ Hr Hs) in Hok; discriminate Hok.
  - rewrite (write_failed_after w _ Hr Hs) in Hok; discriminate Hok.
  - rewrite (write_failed_after w _ Hr Hs) in Hok; discriminate Hok.
Qed.

Lemma success_path_is_flushed_witness :
  write_failed a_pipe = false /\
  Ios.pending (cout (final (main (boot a_pipe)))) = "" /\
  stdout_bytes (main (boot a_pipe)) = greeting_line /\
  exit_status (main (boot a_pipe)) = Some 0%Z.
Proof.
  split; [reflexivity |].
  apply (success_path_is_flushed a_pipe); reflexivity.
Defined.

(** C6.  [main] reads neither arguments nor environment: two executions that
    differ only in those end in the same state.  And any two executions on
    healthy standard output, whatever the arguments, the environment, the
    size of the put area or the exception mask, give the same bytes on
    standard output, nothing on standard error, and the same exit code. *)
Theorem deterministic_and_input_independent :
  (forall args env args' env' w,
      execute (mkinvocation args env w) =
      execute (mkinvocation args' env' w)) /\
  (forall i j,
      healthy (streams i) -> healthy (streams j) ->
      stdout_bytes (execute i) = stdout_bytes (execute j) /\
      stderr_bytes (execute i) = "" /\
      stderr_bytes (execute j) = "" /\
      exit_status (execute i) = exit_status (execute j)).
Proof.
  split; [reflexivity |].
  intros [a e [m c d t cm cd]] [a' e' [m' c' d' t' cm' cd']].
  unfold healthy, execute.
  cbn [streams stdout_device]; intros -> ->.
  rewrite (main_after_done _ _ _ (healthy_output_statement m c t cm cd)).
  rewrite (main_after_done _ _ _
             (healthy_output_statement m' c' t' cm' cd')).
  repeat split.
Qed.

Lemma deterministic_and_input_independent_witness :
  healthy (streams from_a_shell) /\ healthy (streams from_a_script) /\
  stdout_bytes (execute from_a_shell) =
    stdout_bytes (execute from_a_script) /\
  stderr_bytes (execute from_a_shell) = "" /\
  stderr_bytes (execute from_a_script) = "" /\
  exit_status (execute from_a_shell) = exit_status (execute from_a_script).
Proof.
  split; [reflexivity | split; [reflexivity |]].
  apply (proj2 deterministic_and_input_independent
               from_a_shell from_a_script); reflexivity.
Defined.

(** ** A statement that throws *)

(** C10.  The handler matches only objects derived from [std::exception]:
    in every execution whose output statement throws an object of another
    type, that object leaves [main], no exit code is returned and standard
    error receives nothing. *)
Theorem foreign_object_is_not_caught (w : world) (tag : Z) :
  raised (output_statement w) = Some (Unrelated tag) ->
  raised (main (boot w)) = Some (Unrelated tag) /\
  exit_status (main (boot w)) = None /\
  stderr_bytes (main (boot w)) = "".
Proof.
  intros Hthrow.
  runs_of w; rewrite Hr in Hthrow; cbn [raised] in Hthrow;
    try discriminate Hthrow.
  injection Hthrow as ->.
  unfold stderr_bytes; cbn [final]; rewrite He.
  repeat split.
Qed.

Lemma foreign_object_is_not_caught_witness :
  raised (output_statement buffer_throwing_int_buffered) =
    Some (Unrelated 42) /\
  raised (main (boot buffer_throwing_int_buffered)) = Some (Unrelated 42) /\
  exit_status (main (boot buffer_throwing_int_buffered)) = None /\
  stderr_bytes (main (boot buffer_throwing_int_buffered)) = "".
Proof.
  split; [reflexivity |].
  apply (foreign_object_is_not_caught buffer_throwing_int_buffered 42).
  reflexivity.
Defined.

(** C9.  [std::cout] is used with the mask it finds.  With the default
    (empty) mask the output statement never throws; and whenever the output
    statement does not throw, [main] returns 0, also when the device did not
    take the bytes: then nothing was delivered and the stream is left in its
    error state. *)
Theorem silent_failure_returns_zero (w : world) :
  (cout_exceptions w = Ios.goodbit ->
   raised (output_statement w) = None) /\
  (raised (output_statement w) = None ->
   exit_status (main (boot w)) = Some 0%Z /\
   (~ healthy w ->
    stdout_bytes (main (boot w)) = "" /\
    Ios.bad (cout (final (main (boot w)))) = true /\
    write_failed w = true)).
Proof.
  split.
  - intros Hmask.
    exact (proj1 (quiet_try_block (boot w) Hmask)).
  - intros Hquiet.
    runs_of w; rewrite Hr in Hquiet; cbn [raised] in Hquiet;
      try discriminate Hquiet.
    + split; [reflexivity | intros Hn; contradiction].
    + split; [reflexivity | intros _].
      split; [exact Hd | split].
      * exact Hs.
      * exact (write_failed_after w _ Hr Hs).
Qed.

Lemma silent_failure_returns_zero_witness :
  cout_exceptions buffer_throwing_default = Ios.goodbit /\
  ~ healthy buffer_throwing_default /\
  raised (output_statement buffer_throwing_default) = None /\
  exit_status (main (boot buffer_throwing_default)) = Some 0%Z /\
  stdout_bytes (main (boot buffer_throwing_default)) = "" /\
  Ios.bad (cout (final (main (boot buffer_throwing_default)))) = true /\
  write_failed buffer_throwing_default = true.
Proof.
  assert (Hsick : ~ healthy buffer_throwing_default)
    by (unfold healthy; cbn; discriminate).
  destruct (silent_failure_returns_zero buffer_throwing_default)
    as [Hquiet Hzero].
  pose proof (Hquiet eq_refl) as Hnone.
  destruct (Hzero Hnone) as [Hexit Hlost].
  split; [reflexivity | split; [exact Hsick |]].
  split; [exact Hnone | split; [exact Hexit | exact (Hlost Hsick)]].
Defined.



(** ** The exit status *)

(** C8.  In every execution, whatever the state [main] is entered in, the
    value [main] returns is 0 or 1.  Started in a fresh process, [main]
    returns no value only when the output statement threw: an object that
    is not derived from [std::exception] leaves [main] as it is, and after
    one that is, what leaves [main] is derived from [std::exception]. *)
Theorem exit_code_is_0_or_1 :
  (forall (p : process) (v : Z),
      exit_status (main p) = Some v -> v = 0%Z \/ v = 1%Z) /\
  (forall w : world,
      match main (boot w) with
      | Done v _ => v = 0%Z \/ v = 1%Z
      | Raised e _ =>
          exists e0,
            raised (output_statement w) = Some e0 /\
            is_derived e = is_derived e0 /\
            (is_derived e0 = false -> e = e0)
      end).
Proof.
  split.
  - intros p v; unfold exit_status, main, try_catch_std_exception.
    destruct (try_block p) as [v0 p0 | [what | tag] p0] eqn:Htry.
    + intros Hv; left; apply (try_block_value p); rewrite Htry; exact Hv.
    + intros Hv; right; exact (handler_value what p0 v Hv).
    + discriminate.
  - intros w; runs_of w; try (left; reflexivity).
    + exists (Derived what'); rewrite Hr; repeat split.
      discriminate.
    + exists (Unrelated tag'); rewrite Hr; repeat split.
Qed.

Lemma exit_code_is_0_or_1_witness :
  exit_status (main both_streams_failed) = Some 1%Z /\
  (1 = 0 \/ 1 = 1)%Z.
Proof.
  split; [reflexivity |].
  apply (proj1 exit_code_is_0_or_1 both_streams_failed 1%Z).
  reflexivity.
Defined.

(** ** Where the program differs from its contract *)

(** C2, as stated, fails: with standard output closed and the default mask
    the write fails, and [main] returns 0, not 1. *)
Lemma closed_stdout_exits_zero :
  write_failed closed_stdout = true /\
  exit_status (main (boot closed_stdout)) = Some 0%Z /\
  exit_status (main (boot closed_stdout)) <> Some 1%Z.
Proof.
  split; [reflexivity | split; [reflexivity |]].
  intros Habs; vm_compute in Habs; discriminate Habs.
Qed.

(** C2, amended.  The exit status is 0 when the write completes without
    error, and also whenever the output statement ends without throwing,
    though the write failed.  The exit status is 1 only if the write
    failed: whatever the state [main] is entered in, it returns 1 only
    after the output statement has thrown an exception derived from
    [std::exception], which leaves [std::cout] not good. *)
Theorem exit_status_follows_exceptions :
  (forall w : world,
      (write_failed w = false -> exit_status (main (boot w)) = Some 0%Z) /\
      (raised (output_statement w) = None ->
       exit_status (main (boot w)) = Some 0%Z)) /\
  (forall p : process,
      exit_status (main p) = Some 1%Z ->
      Ios.good (cout (final (try_block p))) = false /\
      exists what, raised (try_block p) = Some (Derived what)).
Proof.
  split.
  - intros w; runs_of w; rewrite Hr; cbn [raised exit_status value];
      try rewrite (write_failed_after w _ Hr Hs);
      split; solve [reflexivity | discriminate].
  - intros p; unfold exit_status, main, try_catch_std_exception.
    destruct (try_block p) as [v q|[what|tag] q] eqn:Htry;
      cbn [value final raised].
    + intros Hv; injection Hv as ->.
      pose proof (try_block_value p 1%Z) as Habs.
      rewrite Htry in Habs; specialize (Habs eq_refl); discriminate Habs.
    + intros _; split; [| exists what; reflexivity].
      apply IosFacts.bad_not_good.
      exact (proj1 (try_block_raise_selected p _ q Htry)).
    + discriminate.
Qed.

Lemma exit_status_follows_exceptions_witness :
  exit_status (main both_streams_failed) = Some 1%Z /\
  Ios.good (cout (final (try_block both_streams_failed))) = false /\
  exists what, raised (try_block both_streams_failed) = Some (Derived what).
Proof.
  split; [reflexivity |].
  apply (proj2 exit_status_follows_exceptions both_streams_failed).
  reflexivity.
Defined.

(** C4, as stated, fails: on a full disk with the default mask neither the
    greeting nor an error line appears. *)
Lemma full_disk_shows_nothing :
  stdout_bytes (main (boot full_disk)) = "" /\
  stderr_bytes (main (boot full_disk)) = "" /\
  ~ ((stdout_bytes (main (boot full_disk)) = greeting_line /\
      stderr_bytes (main (boot full_disk)) = "") \/
     (exists what,
         stderr_bytes (main (boot full_disk)) = diagnostic_line what /\
         stdout_bytes (main (boot full_disk)) = "")).
Proof.
  split; [reflexivity | split; [reflexivity |]].
  intros [[Habs _] | [what [Habs _]]]; vm_compute in Habs; discriminate Habs.
Qed.

(** C4, amended.  A run never shows both the greeting and an error line.
    When the write succeeds it shows the greeting line and no error line;
    when the write fails it shows no greeting line, and, if the output
    statement did not throw, no error line either: neither appears. *)
Theorem greeting_error_or_neither (w : world) :
  let r := main (boot w) in
  ((write_failed w = false /\
    stdout_bytes r = greeting_line /\ stderr_bytes r = "") \/
   (write_failed w = true /\
    stdout_bytes r <> greeting_line /\
    (raised (output_statement w) = None -> stderr_bytes r = ""))) /\
  ~ (stdout_bytes r = greeting_line /\ stderr_bytes r <> "").
Proof.
  assert (Hnonempty : "" <> greeting_line) by discriminate.
  cbv zeta; unfold stdout_bytes, stderr_bytes.
  runs_of w; cbn [final]; rewrite ?Hc, ?He, ?Hd, ?Hq;
    cbn [boot cerr Ios.open Ios.delivered].
  - split; [left | intros [_ Habs]; apply Habs; reflexivity].
    split; [| split; reflexivity].
    apply (write_succeeded_after w _ Hr); cbn [final]; rewrite Hc.
    reflexivity.
  - split; [right | intros [Habs _]; contradiction].
    split; [exact (write_failed_after w _ Hr Hs) |].
    split; [exact Hnonempty | reflexivity].
  - split; [right | intros [Habs _]; contradiction].
    split; [exact (write_failed_after w _ Hr Hs) |].
    split; [exact Hnonempty | reflexivity].
  - split; [right | intros [Habs _]; contradiction].
    split; [exact (write_failed_after w _ Hr Hs) |].
    split; [exact Hnonempty | reflexivity].
Qed.

Lemma greeting_error_or_neither_witness :
  raised (output_statement both_closed) = None /\
  write_failed both_closed = true /\
  stdout_bytes (main (boot both_closed)) <> greeting_line /\
  stderr_bytes (main (boot both_closed)) = "".
Proof.
  split; [reflexivity |].
  destruct (greeting_error_or_neither both_closed)
    as [[[Habs _] | (Hfailed & Hline & Hnone)] _];
    [vm_compute in Habs; discriminate Habs |].
  split; [exact Hfailed | split; [exact Hline | apply Hnone; reflexivity]].
Defined.

(** C5, as stated, fails: with the reader of the pipe gone and the default
    masks, the output operation fails, and the error is not converted: no
    diagnostic is written and the exit status is 0. *)
Lemma failed_write_is_not_converted :
  write_failed reader_gone = true /\
  raised (main (boot reader_gone)) = None /\
  stderr_bytes (main (boot reader_gone)) = "" /\
  exit_status (main (boot reader_gone)) = Some 0%Z.
Proof. repeat split. Qed.

(** C5, amended.  With the exception mask [main] runs with (the default),
    no error condition of the output operation leaves [main]: nothing is
    thrown, and [main] returns.  Nor is the error converted: it is recorded
    in the error state of [std::cout], standard error receives nothing and
    the exit status is 0. *)
Theorem output_errors_stay_in_the_stream (w : world) :
  cout_exceptions w = Ios.goodbit ->
  raised (main (boot w)) = None /\
  exit_status (main (boot w)) = Some 0%Z /\
  stderr_bytes (main (boot w)) = "" /\
  (~ healthy w -> Ios.bad (cout (final (main (boot w)))) = true).
Proof.
  intros Hmask.
  pose proof (proj1 (quiet_try_block (boot w) Hmask)) as Hquiet.
  fold (output_statement w) in Hquiet.
  unfold stderr_bytes.
  runs_of w; rewrite Hr in Hquiet; cbn [raised] in Hquiet;
    try discriminate Hquiet; cbn [final]; rewrite He.
  - repeat split; intros Hn; contradiction.
  - repeat split; intros _; exact Hs.
Qed.

Lemma output_errors_stay_in_the_stream_witness :
  cout_exceptions reader_gone = Ios.goodbit /\
  raised (main (boot reader_gone)) = None /\
  exit_status (main (boot reader_gone)) = Some 0%Z /\
  stderr_bytes (main (boot reader_gone)) = "" /\
  (~ healthy reader_gone ->
   Ios.bad (cout (final (main (boot reader_gone)))) = true).
Proof.
  split; [reflexivity |].
  apply (output_errors_stay_in_the_stream reader_gone); reflexivity.
Defined.

(** * main in any state of the process *)

(** ** std::cerr is written only after a throw *)

Lemma main_without_throw (p : process) :
  raised (try_block p) = None -> main p = try_block p.
Proof.
  unfold main, try_catch_std_exception.
  destruct (try_block p) as [v p'|e p']; [reflexivity | discriminate].
Qed.

(** X4.  Whatever the state [main] is entered in, when the output statement
    does not throw, [main] ends as the [try] block does and leaves
    [std::cerr] exactly as it found it: the only writes to standard error
    are those of the handler. *)
Theorem stderr_untouched_without_throw (p : process) :
  raised (try_block p) = None ->
  main p = try_block p /\ cerr (final (main p)) = cerr p.
Proof.
  intros Hquiet.
  rewrite (main_without_throw p Hquiet).
  split; [reflexivity | apply try_block_keeps_cerr].
Qed.

Lemma stderr_untouched_without_throw_witness :
  raised (try_block after_a_prompt) = None /\
  main after_a_prompt = try_block after_a_prompt /\
  cerr (final (main after_a_prompt)) = cerr after_a_prompt.
Proof.
  split; [reflexivity |].
  apply (stderr_untouched_without_throw after_a_prompt); reflexivity.
Defined.

(** X3.  In any state whose [std::cout] has the default (empty) exception
    mask, whatever its device, put area and error state, [main] does not
    throw, returns 0 and leaves [std::cerr] as it found it: the handler is
    never entered. *)
Theorem default_mask_always_returns_zero (p : process) :
  Ios.exceptions (cout p) = Ios.goodbit ->
  raised (main p) = None /\
  exit_status (main p) = Some 0%Z /\
  cerr (final (main p)) = cerr p.
Proof.
  intros Hmask.
  destruct (quiet_try_block p Hmask) as [Hquiet _].
  rewrite (main_without_throw p Hquiet).
  split; [exact Hquiet | split; [| apply try_block_keeps_cerr]].
  unfold exit_status.
  destruct (try_block p) as [v p'|e p'] eqn:Htry; [| discriminate Hquiet].
  cbn [value]; f_equal; apply (try_block_value p); rewrite Htry; reflexivity.
Qed.

Lemma default_mask_always_returns_zero_witness :
  Ios.exceptions (cout (boot full_disk)) = Ios.goodbit /\
  raised (main (boot full_disk)) = None /\
  exit_status (main (boot full_disk)) = Some 0%Z /\
  cerr (final (main (boot full_disk))) = cerr (boot full_disk).
Proof.
  split; [reflexivity |].
  apply (default_mask_always_returns_zero (boot full_disk)); reflexivity.
Defined.

(** ** Appending to what std::cout already holds *)

Lemma append_empty_r (s : string) : s ++ "" = s.
Proof. induction s as [|c s IH]; cbn; [| rewrite IH]; reflexivity. Qed.

Lemma append_assoc (a b c : string) : (a ++ b) ++ c = a ++ b ++ c.
Proof. induction a as [|x a IH]; cbn; [| rewrite IH]; reflexivity. Qed.

(** On an accepting device an insertion succeeds and adds its characters
    after what the device and the put area hold, in this order. *)
Lemma output_sputn_accepting (s : string) (os : Ios.ostream) :
  Ios.sink os = Ios.Accepting ->
  exists os',
    Ios.output (Ios.sputn s) os = Done tt os' /\
    Ios.rdstate os' = Ios.rdstate os /\
    Ios.sink os' = Ios.Accepting /\
    Ios.delivered os' ++ Ios.pending os' =
      Ios.delivered os ++ Ios.pending os ++ s.
Proof.
  intros Hsink; unfold Ios.output, Ios.sputn, Ios.transfer.
  destruct (String.length (Ios.pending os ++ s) <=? Ios.capacity os)%nat.
  - exists (Ios.set_pending (Ios.pending os ++ s) os).
    repeat split; exact Hsink.
  - rewrite Hsink.
    exists (Ios.deliver (Ios.pending os ++ s) os).
    repeat split; [exact Hsink |].
    cbn [Ios.deliver Ios.delivered Ios.pending]; apply append_empty_r.
Qed.

(** On an accepting device a flush succeeds and empties the put area onto
    the device. *)
Lemma output_pubsync_accepting (os : Ios.ostream) :
  Ios.sink os = Ios.Accepting ->
  exists os',
    Ios.output Ios.pubsync os = Done tt os' /\
    Ios.rdstate os' = Ios.rdstate os /\
    Ios.pending os' = "" /\
    Ios.delivered os' = Ios.delivered os ++ Ios.pending os.
Proof.
  intros Hsink; unfold Ios.output, Ios.pubsync, Ios.transfer.
  destruct (Ios.pending os) as [|c rest] eqn:Hpend.
  - exists os; repeat split; [exact Hpend |].
    symmetry; apply append_empty_r.
  - rewrite Hsink.
    exists (Ios.deliver (String c rest) os); repeat split.
Qed.

Lemma guarded_on_good_cout (body : M Ios.ostream unit) (c c' e : Ios.ostream) :
  Ios.good c = true ->
  body c = Done tt c' ->
  (ok <- sentry Cout ;; if ok : bool then on Cout body else ret tt)
    (mkprocess c e) = Done tt (mkprocess c' e).
Proof.
  intros Hgood Hbody; rewrite guarded_on_cout.
  unfold on; cbn [stream cout].
  rewrite (IosFacts.guarded_good body c Hgood), Hbody; reflexivity.
Qed.

(** X1.  Entered with [std::cout] good on an accepting device, whatever the
    device already received and whatever is still in the put area, [main]
    returns 0 and standard output ends as what was delivered, then what was
    pending, then the greeting line, in this order; the put area is empty,
    the stream is still good and [std::cerr] is as it was. *)
Theorem greeting_is_appended (p : process) :
  Ios.good (cout p) = true ->
  Ios.sink (cout p) = Ios.Accepting ->
  exit_status (main p) = Some 0%Z /\
  stdout_bytes (main p) =
    Ios.delivered (cout p) ++ Ios.pending (cout p) ++ greeting_line /\
  Ios.pending (cout (final (main p))) = "" /\
  Ios.good (cout (final (main p))) = true /\
  cerr (final (main p)) = cerr p.
Proof.
  destruct p as [c e]; cbn [cout cerr]; intros Hgood Hsink.
  destruct (output_sputn_accepting greeting c Hsink)
    as (c1 & E1 & R1 & S1 & C1).
  destruct (output_sputn_accepting (String newline "") c1 S1)
    as (c2 & E2 & R2 & S2 & C2).
  destruct (output_pubsync_accepting c2 S2) as (c3 & E3 & R3 & P3 & D3).
  assert (G1 : Ios.good c1 = true) by (unfold Ios.good in *; congruence).
  assert (G2 : Ios.good c2 = true) by (unfold Ios.good in *; congruence).
  assert (G3 : Ios.good c3 = true) by (unfold Ios.good in *; congruence).
  assert (Htry : try_block (mkprocess c e) = Done 0%Z (mkprocess c3 e)).
  { unfold try_block, endl, insert, put, flush.
    rewrite (bind_done _ _ _ tt _ (guarded_on_good_cout _ c c1 e Hgood E1)).
    rewrite (bind_done _ _ _ tt (mkprocess c3 e)); [reflexivity |].
    rewrite (bind_done _ _ _ tt _ (guarded_on_good_cout _ c1 c2 e G1 E2)).
    exact (guarded_on_good_cout _ c2 c3 e G2 E3). }
  assert (Hmain : main (mkprocess c e) = Done 0%Z (mkprocess c3 e))
    by (unfold main, try_catch_std_exception; rewrite Htry; reflexivity).
  rewrite Hmain; unfold stdout_bytes; cbn [final cout cerr exit_status value].
  repeat split; [| exact P3 | exact G3].
  rewrite D3, <- (append_empty_r (Ios.delivered c2 ++ Ios.pending c2)).
  rewrite C2, <- append_assoc, C1.
  unfold greeting_line; rewrite !append_assoc.
  rewrite (append_empty_r (String newline "")); reflexivity.
Qed.

Lemma greeting_is_appended_witness :
  Ios.good (cout after_a_prompt) = true /\
  Ios.sink (cout after_a_prompt) = Ios.Accepting /\
  exit_status (main after_a_prompt) = Some 0%Z /\
  stdout_bytes (main after_a_prompt) =
    Ios.delivered (cout after_a_prompt) ++
    Ios.pending (cout after_a_prompt) ++ greeting_line /\
  Ios.pending (cout (final (main after_a_prompt))) = "" /\
  Ios.good (cout (final (main after_a_prompt))) = true /\
  cerr (final (main after_a_prompt)) = cerr after_a_prompt.
Proof.
  split; [reflexivity | split; [reflexivity |]].
  apply (greeting_is_appended after_a_prompt); reflexivity.
Defined.

(** ** The handler *)

(** One output function of [std::cerr] when [std::cerr] is not good: it
    writes nothing, leaves [std::cerr] not good and [std::cout] as it
    is. *)
Lemma failed_cerr_step (body : M Ios.ostream unit) (q : process) :
  Ios.good (cerr q) = false ->
  let r := (ok <- sentry Cerr ;;
            if ok : bool then on Cerr body else ret tt) q in
  Ios.good (cerr (final r)) = false /\
  Ios.delivered (cerr (final r)) = Ios.delivered (cerr q) /\
  Ios.pending (cerr (final r)) = Ios.pending (cerr q) /\
  cout (final r) = cout q.
Proof.
  intros Hgood r; subst r.
  rewrite (guarded_on_failed_cerr body q Hgood).
  rewrite on_cerr_keeps_cout, (cerr_after _ q _ eq_refl).
  destruct (IosFacts.guarded_not_good_frame body (cerr q) Hgood)
    as (H1 & H2 & H3).
  repeat split; assumption.
Qed.

(** The handler entered with [std::cerr] not good. *)
Lemma handler_on_failed_cerr (what : string) (q : process) :
  Ios.good (cerr q) = false ->
  Ios.good (cerr (final (handler what q))) = false /\
  Ios.delivered (cerr (final (handler what q))) = Ios.delivered (cerr q) /\
  Ios.pending (cerr (final (handler what q))) = Ios.pending (cerr q) /\
  cout (final (handler what q)) = cout q.
Proof.
  intros Hgood.
  pose (I := fun q' : process =>
               Ios.good (cerr q') = false /\
               Ios.delivered (cerr q') = Ios.delivered (cerr q) /\
               Ios.pending (cerr q') = Ios.pending (cerr q) /\
               cout q' = cout q).
  assert (Hstep : forall body : M Ios.ostream unit,
             preserving I
               (ok <- sentry Cerr ;;
                if ok : bool then on Cerr body else ret tt)).
  { intros body q' (G & D & P & C).
    destruct (failed_cerr_step body q' G) as (G' & D' & P' & C').
    unfold I; repeat split; congruence. }
  assert (Hall : preserving I (handler what));
    [| apply (Hall q); unfold I; repeat split; exact Hgood].
  unfold handler, endl, insert, put, flush.
  repeat (apply preserving_bind; [| intros _]);
    try apply preserving_ret; apply Hstep.
Qed.

(** Whatever the state [main] is entered in and however it ends, the device
    and the put area of [std::cerr] are as they were: either [std::cerr] is
    good and the flush of the tied [std::cout] throws before the first
    insertion, or it is not good and the insertions are skipped. *)
Lemma main_keeps_stderr_bytes (p : process) :
  Ios.delivered (cerr (final (main p))) = Ios.delivered (cerr p) /\
  Ios.pending (cerr (final (main p))) = Ios.pending (cerr p).
Proof.
  pose proof (try_block_keeps_cerr p) as Hframe.
  unfold main, try_catch_std_exception.
  destruct (try_block p) as [v q|[what|tag] q] eqn:Htry;
    cbn [final] in Hframe |- *; try (rewrite Hframe; split; reflexivity).
  destruct (try_block_raise_selected p _ q Htry) as [Hbad Hsel].
  destruct (Ios.good (cerr q)) eqn:Hgood.
  - rewrite (handler_rethrows what q Hgood Hbad Hsel); cbn [final cerr].
    rewrite Hframe; split; reflexivity.
  - destruct (handler_on_failed_cerr what q Hgood) as (_ & D & P & _).
    rewrite D, P, Hframe; split; reflexivity.
Qed.

(** And the handler leaves the device and the put area of [std::cout] as
    the output statement left them. *)
Lemma main_keeps_stdout_bytes (p : process) :
  Ios.delivered (cout (final (main p))) =
    Ios.delivered (cout (final (try_block p))) /\
  Ios.pending (cout (final (main p))) =
    Ios.pending (cout (final (try_block p))).
Proof.
  unfold main, try_catch_std_exception.
  destruct (try_block p) as [v q|[what|tag] q] eqn:Htry;
    cbn [final]; try (split; reflexivity).
  destruct (try_block_raise_selected p _ q Htry) as [Hbad Hsel].
  destruct (Ios.good (cerr q)) eqn:Hgood.
  - rewrite (handler_rethrows what q Hgood Hbad Hsel); cbn [final cout].
    split; reflexivity.
  - destruct (handler_on_failed_cerr what q Hgood) as (_ & _ & _ & C).
    rewrite C; split; reflexivity.
Qed.

(** X7.  Entered with the put area of [std::cerr] empty (as unit buffering
    keeps it), whatever else the state and however [main] ends, [main]
    delivers nothing to standard error and leaves nothing in the put area
    of [std::cerr]: the diagnostic of the handler is never written. *)
Theorem diagnostic_is_never_written (p : process) :
  Ios.pending (cerr p) = "" ->
  Ios.delivered (cerr (final (main p))) = Ios.delivered (cerr p) /\
  Ios.pending (cerr (final (main p))) = "".
Proof.
  intros Hempty.
  destruct (main_keeps_stderr_bytes p) as [D P].
  split; [exact D | rewrite P; exact Hempty].
Qed.

Lemma diagnostic_is_never_written_witness :
  Ios.pending (cerr (boot buffer_throwing_standard)) = "" /\
  Ios.delivered (cerr (final (main (boot buffer_throwing_standard)))) =
    Ios.delivered (cerr (boot buffer_throwing_standard)) /\
  Ios.pending (cerr (final (main (boot buffer_throwing_standard)))) = "".
Proof.
  split; [reflexivity |].
  apply (diagnostic_is_never_written (boot buffer_throwing_standard)).
  reflexivity.
Defined.

(** X5.  Whatever the state [main] is entered in, the handler writes
    nothing to standard output: what the device of [std::cout] has received
    and what its put area holds are as the output statement left them. *)
Theorem handler_leaves_stdout (p : process) :
  Ios.delivered (cout (final (main p))) =
    Ios.delivered (cout (final (try_block p))) /\
  Ios.pending (cout (final (main p))) =
    Ios.pending (cout (final (try_block p))).
Proof. exact (main_keeps_stdout_bytes p). Qed.

(** X8.  If the output statement throws an exception derived from
    [std::exception] while [std::cerr] is not good, with the default mask
    and an empty put area, the tied [std::cout] is not flushed and the
    handler's insertions are all skipped: [main] returns 1, nothing is
    written to standard error, and [std::cout] stays as the output
    statement left it. *)
Theorem failure_without_diagnostic (p : process) (what : string) :
  raised (try_block p) = Some (Derived what) ->
  Ios.good (cerr p) = false ->
  Ios.exceptions (cerr p) = Ios.goodbit ->
  Ios.pending (cerr p) = "" ->
  exit_status (main p) = Some 1%Z /\
  Ios.delivered (cerr (final (main p))) = Ios.delivered (cerr p) /\
  Ios.pending (cerr (final (main p))) = "" /\
  cout (final (main p)) = cout (final (try_block p)).
Proof.
  intros Hthrow Hcerr Hmask Hempty; rewrite <- Hempty.
  pose proof (try_block_keeps_cerr p) as Hframe.
  unfold main, try_catch_std_exception.
  destruct (try_block p) as [v q|e q] eqn:Htry; [discriminate Hthrow |].
  cbn [raised] in Hthrow; injection Hthrow as ->.
  cbn [final] in Hframe |- *.
  rewrite <- Hframe in Hcerr, Hmask.
  destruct (handler_on_failed_cerr what q Hcerr) as (_ & D & P & C).
  rewrite D, P, C, Hframe; repeat split.
  assert (Hstep : forall (body : M Ios.ostream unit) (q' : process),
             Ios.good (cerr q') = false ->
             Ios.exceptions (cerr q') = Ios.goodbit ->
             exists q'',
               (ok <- sentry Cerr ;;
                if ok : bool then on Cerr body else ret tt) q' =
                 Done tt q'' /\
               Ios.good (cerr q'') = false /\
               Ios.exceptions (cerr q'') = Ios.goodbit).
  { intros body q' G X.
    rewrite (guarded_on_failed_cerr body q' G); unfold on; cbn [stream].
    destruct (IosFacts.guarded_not_good_default_mask body (cerr q') G X)
      as (os' & -> & G' & X' & _).
    eexists; split; [reflexivity |].
    destruct q'; split; assumption. }
  destruct (Hstep (Ios.output (Ios.sputn error_prefix)) q Hcerr Hmask)
    as (q1 & E1 & G1 & X1).
  destruct (Hstep (Ios.output (Ios.sputn what)) q1 G1 X1)
    as (q2 & E2 & G2 & X2).
  destruct (Hstep (Ios.output (Ios.sputc newline)) q2 G2 X2)
    as (q3 & E3 & G3 & X3).
  destruct (Hstep (Ios.output Ios.pubsync) q3 G3 X3)
    as (q4 & E4 & _ & _).
  unfold handler, endl, insert, put, flush.
  rewrite (bind_done _ _ _ tt _ E1), (bind_done _ _ _ tt _ E2).
  rewrite (bind_done _ _ _ tt q4); [reflexivity |].
  rewrite (bind_done _ _ _ tt _ E3); exact E4.
Qed.

Lemma failure_without_diagnostic_witness :
  raised (try_block both_streams_failed) = Some (Derived libstdcxx_text) /\
  Ios.good (cerr both_streams_failed) = false /\
  Ios.exceptions (cerr both_streams_failed) = Ios.goodbit /\
  Ios.pending (cerr both_streams_failed) = "" /\
  exit_status (main both_streams_failed) = Some 1%Z /\
  Ios.delivered (cerr (final (main both_streams_failed))) =
    Ios.delivered (cerr both_streams_failed) /\
  Ios.pending (cerr (final (main both_streams_failed))) = "" /\
  cout (final (main both_streams_failed)) =
    cout (final (try_block both_streams_failed)).
Proof.
  split; [reflexivity | split; [reflexivity |]].
  split; [reflexivity | split; [reflexivity |]].
  apply (failure_without_diagnostic both_streams_failed libstdcxx_text);
    reflexivity.
Defined.

(** ** std::cout failed before main *)

Lemma try_block_on_failed_cout (p : process) :
  Ios.good (cout p) = false ->
  Ios.delivered (cout (final (try_block p))) = Ios.delivered (cout p) /\
  Ios.pending (cout (final (try_block p))) = Ios.pending (cout p).
Proof.
  intros Hgood.
  pose (I := fun q : process =>
               Ios.good (cout q) = false /\
               Ios.delivered (cout q) = Ios.delivered (cout p) /\
               Ios.pending (cout q) = Ios.pending (cout p)).
  assert (Hstep : forall body : M Ios.ostream unit,
             preserving I (on Cout (Ios.guarded body))).
  { intros body q (G & D & P); unfold I.
    rewrite (cout_after _ q _ eq_refl).
    destruct (IosFacts.guarded_not_good_frame body (cout q) G)
      as (G' & D' & P').
    repeat split; congruence. }
  assert (Hall : preserving I try_block)
    by (apply preserving_try_block; [intros s |]; apply Hstep).
  destruct (Hall p) as (_ & D & P); [| split; assumption].
  unfold I; repeat split; exact Hgood.
Qed.

(** X2.  If [std::cout] is not good when [main] is entered, [main] writes
    nothing to standard output: the device and the put area of [std::cout]
    stay as they were, however [main] ends.  If moreover [std::cout] is not
    bad (it failed with [failbit] or [eofbit] only), every output function
    is skipped altogether: [main] changes nothing and returns 0. *)
Theorem failed_stdout_is_left_alone (p : process) :
  Ios.good (cout p) = false ->
  (Ios.delivered (cout (final (main p))) = Ios.delivered (cout p) /\
   Ios.pending (cout (final (main p))) = Ios.pending (cout p)) /\
  (Ios.bad (cout p) = false -> main p = Done 0%Z p).
Proof.
  intros Hgood; split.
  - destruct (main_keeps_stdout_bytes p) as [-> ->].
    exact (try_block_on_failed_cout p Hgood).
  - intros Hbad.
    assert (Hskip : forall body,
               (ok <- sentry Cout ;;
                if ok : bool then on Cout body else ret tt) p = Done tt p).
    { intros body; rewrite guarded_on_cout; unfold on; cbn [stream].
      rewrite (IosFacts.guarded_idle body (cout p) Hgood Hbad).
      destruct p; reflexivity. }
    assert (Hendl : endl Cout p = Done tt p).
    { unfold endl, put, flush.
      rewrite (bind_done _ _ p tt p (Hskip _)); apply Hskip. }
    unfold main, try_catch_std_exception, try_block, insert.
    rewrite (bind_done _ _ p tt p (Hskip _)).
    rewrite (bind_done _ _ p tt p Hendl).
    reflexivity.
Qed.

Lemma failed_stdout_is_left_alone_witness :
  Ios.good (cout stdout_already_failed) = false /\
  Ios.bad (cout stdout_already_failed) = false /\
  (Ios.delivered (cout (final (main stdout_already_failed))) =
     Ios.delivered (cout stdout_already_failed) /\
   Ios.pending (cout (final (main stdout_already_failed))) =
     Ios.pending (cout stdout_already_failed)) /\
  main stdout_already_failed = Done 0%Z stdout_already_failed.
Proof.
  split; [reflexivity | split; [reflexivity |]].
  destruct (failed_stdout_is_left_alone stdout_already_failed eq_refl)
    as [Hbytes Hidle].
  split; [exact Hbytes | apply Hidle; reflexivity].
Defined.

(** ** What main never changes *)

Section Setup.

Variable p0 : process.

Lemma on_keeps_setup {A : Type} (id : stream_id) (body : M Ios.ostream A) :
  (forall os, same_setup (final (body os)) os) ->
  preserving (setup_kept p0) (on id body).
Proof.
  intros Hbody q [Hc He]; unfold on.
  specialize (Hbody (stream id q)).
  destruct id; cbn [stream] in *;
    destruct (body _) as [a os'|e os']; cbn [final update cout cerr] in *;
    split; try assumption;
    eapply IosFacts.same_setup_trans; eassumption.
Qed.

Lemma sentry_untied_setup (os : Ios.ostream) :
  same_setup (final (Ios.sentry_untied os)) os.
Proof.
  unfold Ios.sentry_untied, bind.
  destruct (Ios.good os); [apply IosFacts.same_setup_refl |].
  destruct (Ios.bad os); [| apply IosFacts.same_setup_refl].
  unfold Ios.setstate, Ios.clear, ret.
  destruct (Z.land _ _ =? 0)%Z; repeat split.
Qed.

Lemma flush_untied_setup (os : Ios.ostream) :
  same_setup (final (Ios.flush_untied os)) os.
Proof.
  apply IosFacts.guarded_setup, IosFacts.output_setup,
    IosFacts.pubsync_setup.
Qed.

Lemma sentry_keeps_setup (id : stream_id) :
  preserving (setup_kept p0) (sentry id).
Proof.
  unfold sentry; apply preserving_bind;
    [| intros _; apply on_keeps_setup, sentry_untied_setup].
  intros q Hq; unfold flush_tied.
  destruct (Ios.good (stream id q)); [| exact Hq].
  destruct (tie id) as [t|]; [| exact Hq].
  exact (on_keeps_setup t Ios.flush_untied flush_untied_setup q Hq).
Qed.

Lemma guarded_keeps_setup (id : stream_id) (attempt : M Ios.ostream bool) :
  (forall os, same_setup (final (attempt os)) os) ->
  preserving (setup_kept p0)
    (ok <- sentry id ;;
     if ok : bool then on id (Ios.output attempt) else ret tt).
Proof.
  intros Hk.
  apply preserving_bind; [apply sentry_keeps_setup |].
  intros [|]; [| apply preserving_ret].
  apply on_keeps_setup, IosFacts.output_setup, Hk.
Qed.

Lemma main_keeps_setup : preserving (setup_kept p0) main.
Proof.
  assert (Hn : forall id s, preserving (setup_kept p0) (insert id s))
    by (intros id s; apply guarded_keeps_setup; intro;
        apply IosFacts.sputn_setup).
  assert (He : forall id, preserving (setup_kept p0) (endl id)).
  { intros id; unfold endl, put, flush.
    apply preserving_bind; [| intros _]; apply guarded_keeps_setup;
      intro; [apply IosFacts.sputn_setup | apply IosFacts.pubsync_setup]. }
  assert (Ht : preserving (setup_kept p0) try_block).
  { unfold try_block.
    apply preserving_bind; [apply Hn | intros _].
    apply preserving_bind; [apply He | intros _; apply preserving_ret]. }
  assert (Hh : forall what, preserving (setup_kept p0) (handler what)).
  { intros what; unfold handler.
    apply preserving_bind; [apply Hn | intros _].
    apply preserving_bind; [apply Hn | intros _].
    apply preserving_bind; [apply He | intros _; apply preserving_ret]. }
  intros q Hq; unfold main, try_catch_std_exception.
  specialize (Ht q Hq).
  destruct (try_block q) as [v q'|[what|tag] q']; cbn [final] in Ht;
    [exact Ht | apply Hh; exact Ht | exact Ht].
Qed.

End Setup.

(** X6.  Whatever the state [main] is entered in and however it ends,
    both streams keep their setup: [main] never changes an exception mask,
    the size of a put area or the device behind a stream. *)
Theorem main_never_reconfigures (p : process) :
  (Ios.exceptions (cout (final (main p))) = Ios.exceptions (cout p) /\
   Ios.capacity (cout (final (main p))) = Ios.capacity (cout p) /\
   Ios.sink (cout (final (main p))) = Ios.sink (cout p) /\
   Ios.failure_text (cout (final (main p))) = Ios.failure_text (cout p)) /\
  (Ios.exceptions (cerr (final (main p))) = Ios.exceptions (cerr p) /\
   Ios.capacity (cerr (final (main p))) = Ios.capacity (cerr p) /\
   Ios.sink (cerr (final (main p))) = Ios.sink (cerr p) /\
   Ios.failure_text (cerr (final (main p))) = Ios.failure_text (cerr p)).
Proof.
  apply (main_keeps_setup p p); split; apply IosFacts.same_setup_refl.
Qed.
